(** * Models-Tools: data scrubbing and pre-processing of mortgage records

    A shallow embedding of the notebook
    [Regression-Models/Data Scrubbing and Preprocessing.ipynb]:
    the bucketed imputer ([Buckets], [fill_mean] and the three groupby
    passes), the covariate transformer (the left merge with the benchmark
    rates, [SATO], the PR/VI remap), the window feature extractor ([minVal])
    and the event labeler ([extractDefault], [ResponseValue]).

    Conventions of the embedding.
    - A float is an exact rational ([Q]); a nullable float ([NaN], [NaT],
      an empty CSV cell) is [option], with [None] for the missing value.
      The notebook itself tests the loan columns [OCLTV], [ORIG_RT],
      [CSCORE_B] and [DTI] for nulls, so these four are nullable; the values
      of the two reference series are plain numbers.
    - A Python exception is the [Raise] branch of [result]; Python 2's
      eager [map] over a column is [mapM], which stops at the first
      exception.
    - A table is the list of its rows and its index is the position of the
      row ([read_csv] gives a [RangeIndex]). *)

From Stdlib Require Import ZArith QArith Qround Qminmax List String Ascii Bool Lia Lqa.
From Stdlib Require Import DecimalString.
Import ListNotations.

Local Open Scope Z_scope.

(** ** Python values and exceptions *)

Module Py.

Inductive exn : Type :=
| KeyError     (* a label absent from an index *)
| ValueError   (* [dt.date] out of range, [min] of an empty sequence *)
| TypeError.   (* [dt.date] on the fields of [NaT] *)

Inductive result (A : Type) : Type :=
| Ok (a : A)
| Raise (e : exn).
Arguments Ok {A} a.
Arguments Raise {A} e.

Definition bind {A B : Type} (c : result A) (k : A -> result B) : result B :=
  match c with
  | Ok a => k a
  | Raise e => Raise e
  end.

(** Python 2 [map(f, xs)]: a list built eagerly, left to right. *)
Fixpoint mapM {A B : Type} (f : A -> result B) (xs : list A) : result (list B) :=
  match xs with
  | [] => Ok []
  | x :: xs' =>
      bind (f x) (fun y => bind (mapM f xs') (fun ys => Ok (y :: ys)))
  end.

(** Python 2 [round(x, 0)]: to the nearest integer, halves away from zero. *)
Definition py_round (x : Q) : Z :=
  if Qle_bool 0 x then Qfloor (x + (1 # 2))%Q
  else - Qfloor ((- x) + (1 # 2))%Q.

(** [min(xs)], the built-in: the first smallest element. *)
Fixpoint min_from (m : Q) (xs : list Q) : Q :=
  match xs with
  | [] => m
  | x :: xs' => min_from (if Qle_bool m x then m else x) xs'
  end.

Definition py_min (xs : list Q) : result Q :=
  match xs with
  | [] => Raise ValueError
  | x :: xs' => Ok (min_from x xs')
  end.

End Py.

Export Py.

Declare Scope py_scope.
Notation "x <- c ;; k" := (Py.bind c (fun x => k))
  (at level 61, c at next level, right associativity) : py_scope.
Local Open Scope py_scope.

(** ** Calendar dates ([datetime.date], and [Timestamp] at midnight) *)

Module Dates.

Record date : Type := mkDate { year : Z; month : Z; day : Z }.

Definition is_leap (y : Z) : bool :=
  ((y mod 4 =? 0) && negb (y mod 100 =? 0)) || (y mod 400 =? 0).

Definition days_in_month (y m : Z) : Z :=
  if m =? 2 then (if is_leap y then 29 else 28)
  else if (m =? 4) || (m =? 6) || (m =? 9) || (m =? 11) then 30
  else 31.

Definition valid (y m d : Z) : bool :=
  (1 <=? y) && (y <=? 9999) && (1 <=? m) && (m <=? 12)
  && (1 <=? d) && (d <=? days_in_month y m).

Definition valid_date (t : date) : bool := valid (year t) (month t) (day t).

(** [dt.date(y, m, d)] *)
Definition dt_date (y m d : Z) : result date :=
  if valid y m d then Ok (mkDate y m d) else Raise ValueError.

Definition date_eqb (a b : date) : bool :=
  (year a =? year b) && (month a =? month b) && (day a =? day b).

Definition date_ltb (a b : date) : bool :=
  (year a <? year b)
  || ((year a =? year b)
      && ((month a <? month b)
          || ((month a =? month b) && (day a <? day b)))).

(** [a <= b] on dates *)
Definition date_leb (a b : date) : bool := date_ltb a b || date_eqb a b.

(** The following calendar day ([t + timedelta(days=1)]); only used to
    state properties, the notebook has no such call. *)
Definition next_day (t : date) : date :=
  if day t <? days_in_month (year t) (month t)
  then mkDate (year t) (month t) (day t + 1)
  else if month t <? 12 then mkDate (year t) (month t + 1) 1
  else mkDate (year t + 1) 1 1.

(** [pd.to_datetime(s, format='%m/%Y')] on a well-formed ["MM/YYYY"]: the
    first day of the month. *)
Definition to_datetime_mY (m y : Z) : date := mkDate y m 1.

End Dates.

Export Dates.

(** ** The event labeler *)

Module Labeler.

(** A row of the performance table [Perf]. *)
Record EventRecord : Type := mkEvent {
  ev_LOAN_ID : Z;
  Zero_Bal_Code : option Z;
  ZB_DTE : option date
}.

Definition notnull {A : Type} (o : option A) : bool :=
  match o with Some _ => true | None => false end.

(** [[
    def extractDefault(ID):
        a = Perf.ix[(Perf['LOAN_ID']==ID) & Perf['ZB_DTE'].notnull(),
                    ['Zero.Bal.Code','ZB_DTE']]
        if len(a) == 0: return np.NAN,np.NAN
        else: return a.iloc[0,0], a.iloc[0,1]
    ]] *)
Definition extractDefault (Perf : list EventRecord) (ID : Z)
  : option Z * option date :=
  let a := filter (fun r => (ev_LOAN_ID r =? ID) && notnull (ZB_DTE r)) Perf in
  match a with
  | [] => (None, None)
  | r :: _ => (Zero_Bal_Code r, ZB_DTE r)
  end.

(** [Code in [3,6,9]]; [NaN] equals none of them. *)
Definition in_369 (Code : option Z) : bool :=
  match Code with
  | Some c => (c =? 3) || (c =? 6) || (c =? 9)
  | None => false
  end.

(** [dt.date(DefDate.year, DefDate.month, DefDate.day)]: the fields of
    [NaT] are not integers and [dt.date] rejects them. *)
Definition redate (DefDate : option date) : result date :=
  match DefDate with
  | Some t => dt_date (year t) (month t) (day t)
  | None => Raise TypeError
  end.

(** [[
    def ResponseValue(Code,OrigDate,DefDate):
        if Code in [3,6,9]:
            DefDate = dt.date(DefDate.year, DefDate.month, DefDate.day)
            if DefDate <= dt.date(OrigDate.year+2, OrigDate.month, OrigDate.day):
                return 1
            elif DefDate <= dt.date(OrigDate.year+4, OrigDate.month, OrigDate.day):
                return 2
            elif DefDate <= dt.date(OrigDate.year+6, OrigDate.month, OrigDate.day):
                return 3
        return 0
    ]] *)
Definition ResponseValue (Code : option Z) (OrigDate : date) (DefDate : option date)
  : result Z :=
  if in_369 Code then
    DefDate' <- redate DefDate ;;
    c1 <- dt_date (year OrigDate + 2) (month OrigDate) (day OrigDate) ;;
    if date_leb DefDate' c1 then Ok 1
    else
      c2 <- dt_date (year OrigDate + 4) (month OrigDate) (day OrigDate) ;;
      if date_leb DefDate' c2 then Ok 2
      else
        c3 <- dt_date (year OrigDate + 6) (month OrigDate) (day OrigDate) ;;
        if date_leb DefDate' c3 then Ok 3
        else Ok 0
  else Ok 0.

End Labeler.

Export Labeler.

(** ** Columns of floats *)

Module Column.

Definition present (xs : list (option Q)) : list Q :=
  flat_map (fun v => match v with Some q => [q] | None => [] end) xs.

Definition Qsum (xs : list Q) : Q := fold_right Qplus 0%Q xs.

(** [x.mean()]: missing values are skipped; the mean of no value is [NaN]. *)
Definition mean (xs : list (option Q)) : option Q :=
  match present xs with
  | [] => None
  | vs => Some (Qsum vs / inject_Z (Z.of_nat (List.length vs)))%Q
  end.

Definition fillna1 (m v : option Q) : option Q :=
  match v with
  | Some _ => v
  | None => m
  end.

(** [x.fillna(m)] *)
Definition fillna (xs : list (option Q)) (m : option Q) : list (option Q) :=
  map (fillna1 m) xs.

(** [fill_mean = lambda x: x.fillna(x.mean())] *)
Definition fill_mean (x : list (option Q)) : list (option Q) :=
  fillna x (mean x).

Definition odiv (a : option Q) (w : Z) : option Q :=
  match a with
  | Some q => Some (q / inject_Z w)%Q
  | None => None
  end.

Definition osub (a b : option Q) : option Q :=
  match a, b with
  | Some x, Some y => Some (x - y)%Q
  | _, _ => None
  end.

(** The floats that [round(_, 0)] returns: [NaN], or an integral value;
    a zero rounded from a negative number is [-0.0], which prints
    differently from [0.0]. *)
Inductive rfloat : Type :=
| NaN
| NegZero
| Int (z : Z).

Definition round_f (v : option Q) : rfloat :=
  match v with
  | None => NaN
  | Some q =>
      let z := py_round q in
      if (z =? 0) && negb (Qle_bool 0 q) then NegZero else Int z
  end.

Definition fmul (f : rfloat) (w : Z) : rfloat :=
  match f with
  | NaN => NaN
  | NegZero => NegZero
  | Int z => Int (z * w)
  end.

Definition isnan (f : rfloat) : bool :=
  match f with NaN => true | _ => false end.

Definition string_of_Z (z : Z) : string := NilZero.string_of_int (Z.to_int z).

(** ["{}".format(f)] for a magnitude below [10^12]; from there on Python 2
    prints twelve significant digits and an exponent, which is not
    modelled. *)
Definition str (f : rfloat) : string :=
  match f with
  | NaN => "nan"
  | NegZero => "-0.0"
  | Int z => string_of_Z z ++ ".0"
  end.

End Column.

Export Column.

(** ** The loan table and the bucketed imputer *)

Module Imputer.

(** A row of [Log_Orig]. [ORIG_DTE] is held as
    [pd.to_datetime(Log_Orig['ORIG_DTE'], format='%m/%Y')] leaves it, the
    first day of the origination month; the imputer does not read it. *)
Record LoanRecord : Type := mkLoan {
  LOAN_ID : Z;
  ORIG_AMT : Q;
  ORIG_RT : option Q;
  ORIG_DTE : date;
  OCLTV : option Q;
  DTI : option Q;
  CSCORE_B : option Q;
  STATE : string
}.

Definition Table : Type := list LoanRecord.

(** The three values of [fillVar]: ['CSCORE'], ['DTI'], ['OCLTV']. *)
Inductive FillVar : Type := fCSCORE | fDTI | fOCLTV.

(** [table[c].loc[x]] reads row [x]; a label outside the index is a
    [KeyError]. *)
Definition loc (table : Table) (x : nat) : result LoanRecord :=
  match nth_error table x with
  | Some r => Ok r
  | None => Raise KeyError
  end.

(** The columns are [float64], as the three columns of the notebook are
    (each has empty cells): [/] is the division of floats. Over a column
    typed [int64], one without an empty cell and written without decimal
    points, Python 2 would divide with a floor; this is not modelled.
    [[
    def Buckets(table,x, fillVar):
        if (fillVar == 'CSCORE'):
            (OCLTV,Rate) = (round(table['OCLTV'].loc[x]/20,0)*20, round(table['ORIG_RT'].loc[x],0))
            if np.isnan(OCLTV): OCLTV = round(table['OCLTV'].mean()/20,0)*20
            return "OCLTV-{}/Rate-{}".format(OCLTV,Rate)
        elif (fillVar == 'DTI') or (fillVar == 'OCLTV'):
            (FICO,Rate) = (round(table['CSCORE_B'].loc[x]/50,0)*50, round(table['ORIG_RT'].loc[x],0))
            if np.isnan(FICO): FICO = round(table['CSCORE_B'].mean()/50,0)*50
            return "FICO-{}/Rate-{}".format(FICO,Rate)
    ]] *)
Definition Buckets (table : Table) (x : nat) (fillVar : FillVar) : result string :=
  match fillVar with
  | fCSCORE =>
      r <- loc table x ;;
      let OCLTV0 := fmul (round_f (odiv (OCLTV r) 20)) 20 in
      let Rate := round_f (ORIG_RT r) in
      let OCLTV1 :=
        if isnan OCLTV0
        then fmul (round_f (odiv (mean (map OCLTV table)) 20)) 20
        else OCLTV0 in
      Ok ("OCLTV-" ++ str OCLTV1 ++ "/Rate-" ++ str Rate)%string
  | fDTI | fOCLTV =>
      r <- loc table x ;;
      let FICO0 := fmul (round_f (odiv (CSCORE_B r) 50)) 50 in
      let Rate := round_f (ORIG_RT r) in
      let FICO1 :=
        if isnan FICO0
        then fmul (round_f (odiv (mean (map CSCORE_B table)) 50)) 50
        else FICO0 in
      Ok ("FICO-" ++ str FICO1 ++ "/Rate-" ++ str Rate)%string
  end.

(** The key of the specification's words: each of the two bucketing fields
    is replaced by its table mean when it is missing. Only used to compare
    with [Buckets]. *)
Definition Buckets_as_specified (table : Table) (x : nat) (fillVar : FillVar)
  : result string :=
  r <- loc table x ;;
  let Rate := round_f (fillna1 (mean (map ORIG_RT table)) (ORIG_RT r)) in
  match fillVar with
  | fCSCORE =>
      let v := fillna1 (mean (map OCLTV table)) (OCLTV r) in
      Ok ("OCLTV-" ++ str (fmul (round_f (odiv v 20)) 20) ++ "/Rate-" ++ str Rate)%string
  | fDTI | fOCLTV =>
      let v := fillna1 (mean (map CSCORE_B table)) (CSCORE_B r) in
      Ok ("FICO-" ++ str (fmul (round_f (odiv v 50)) 50) ++ "/Rate-" ++ str Rate)%string
  end.

(** [groupby]: the index labels, gathered by key. *)
Definition members (k : string) (keyed : list (nat * string)) : list nat :=
  map fst (filter (fun p => String.eqb (snd p) k) keyed).

Definition groupby (keyed : list (nat * string)) : list (string * list nat) :=
  map (fun k => (k, members k keyed)) (nodup string_dec (map snd keyed)).

(** [.apply(fill_mean)] on one group: the group's column, filled, under
    the labels of the group. *)
Definition apply_fill (vals : nat -> option Q) (g : string * list nat)
  : list (nat * option Q) :=
  combine (snd g) (fill_mean (map vals (snd g))).

Fixpoint assoc (i : nat) (s : list (nat * option Q)) : option (option Q) :=
  match s with
  | [] => None
  | (j, v) :: s' => if Nat.eqb j i then Some v else assoc i s'
  end.

(** Assigning a series to a column aligns it on the index: a label the
    series lacks gets [NaN]. *)
Definition align (s : list (nat * option Q)) (i : nat) : option Q :=
  match assoc i s with
  | Some v => v
  | None => None
  end.

Definition col_at (col : LoanRecord -> option Q) (table : Table) (i : nat) : option Q :=
  match nth_error table i with
  | Some r => col r
  | None => None
  end.

(** [Log_Orig.groupby(lambda x: Buckets(Log_Orig, x, fillVar))[col].apply(fill_mean)],
    as the column it is assigned to. *)
Definition groupby_fill (table : Table) (fillVar : FillVar)
           (col : LoanRecord -> option Q) : result (list (option Q)) :=
  let index := seq 0 (List.length table) in
  keys <- mapM (fun x => Buckets table x fillVar) index ;;
  let filled := flat_map (apply_fill (col_at col table)) (groupby (combine index keys)) in
  Ok (map (align filled) index).

Definition set_CSCORE_B (r : LoanRecord) (v : option Q) : LoanRecord :=
  mkLoan (LOAN_ID r) (ORIG_AMT r) (ORIG_RT r) (ORIG_DTE r) (OCLTV r) (DTI r) v (STATE r).
Definition set_DTI (r : LoanRecord) (v : option Q) : LoanRecord :=
  mkLoan (LOAN_ID r) (ORIG_AMT r) (ORIG_RT r) (ORIG_DTE r) (OCLTV r) v (CSCORE_B r) (STATE r).
Definition set_OCLTV (r : LoanRecord) (v : option Q) : LoanRecord :=
  mkLoan (LOAN_ID r) (ORIG_AMT r) (ORIG_RT r) (ORIG_DTE r) v (DTI r) (CSCORE_B r) (STATE r).
Definition set_STATE (r : LoanRecord) (s : string) : LoanRecord :=
  mkLoan (LOAN_ID r) (ORIG_AMT r) (ORIG_RT r) (ORIG_DTE r) (OCLTV r) (DTI r) (CSCORE_B r) s.

(** [Log_Orig[c] = column] *)
Definition assign (set : LoanRecord -> option Q -> LoanRecord)
           (table : Table) (column : list (option Q)) : Table :=
  map (fun p => set (fst p) (snd p)) (combine table column).

(** The three bucketed passes, in the notebook's order. *)
Definition bucketed_passes (Log_Orig : Table) : result Table :=
  c <- groupby_fill Log_Orig fCSCORE CSCORE_B ;;
  let t1 := assign set_CSCORE_B Log_Orig c in
  d <- groupby_fill t1 fDTI DTI ;;
  let t2 := assign set_DTI t1 d in
  o <- groupby_fill t2 fOCLTV OCLTV ;;
  Ok (assign set_OCLTV t2 o).

(** [Log_Orig['DTI'] = Log_Orig['DTI'].fillna(Log_Orig['DTI'].mean())] *)
Definition global_mean_DTI (Log_Orig : Table) : Table :=
  assign set_DTI Log_Orig (fillna (map DTI Log_Orig) (mean (map DTI Log_Orig))).

(** Section 1 of the notebook. *)
Definition impute (Log_Orig : Table) : result Table :=
  t <- bucketed_passes Log_Orig ;;
  Ok (global_mean_DTI t).

End Imputer.

Export Imputer.

(** ** The covariate transformer *)

Module Covariates.

(** A reference series: the rows of a date-indexed column, in index order.
    [Rates] is the column ['Rate'] of the benchmark table under its index. *)
Definition series : Type := list (date * Q).

(** [np.where(Log_Orig["STATE"].isin(["CA","FL"]),1,0)] *)
Definition CA_FL (l : LoanRecord) : Z :=
  if String.eqb (STATE l) "CA" || String.eqb (STATE l) "FL" then 1 else 0.

(** The rows of [Rates] whose index equals the key. *)
Definition matches (Rates : series) (key : date) : series :=
  filter (fun e => date_eqb (fst e) key) Rates.

(** [Log_Orig.merge(Rates, how='left', left_on='ORIG_DTE', right_index=True)]
    with the renaming of ['Rate'] to ['ORIG_BENCHMK']: every loan is kept,
    once per matching row of [Rates], and once with a missing benchmark when
    no row matches. *)
Definition merge_left (Log_Orig : Table) (Rates : series)
  : list (LoanRecord * option Q) :=
  flat_map (fun l =>
              match matches Rates (ORIG_DTE l) with
              | [] => [(l, None)]
              | ms => map (fun e => (l, Some (snd e))) ms
              end) Log_Orig.

Definition ORIG_BENCHMK (row : LoanRecord * option Q) : option Q := snd row.

(** [Log_Orig['SATO'] = Log_Orig['ORIG_RT'] - Log_Orig['ORIG_BENCHMK']] *)
Definition SATO (row : LoanRecord * option Q) : option Q :=
  osub (ORIG_RT (fst row)) (ORIG_BENCHMK row).

(** [[
    Log_Orig.ix[Log_Orig['STATE'] == 'PR','STATE'] = 'HI'
    Log_Orig.ix[Log_Orig['STATE'] == 'VI','STATE'] = 'HI'
    ]] *)
Definition remap_PR (l : LoanRecord) : LoanRecord :=
  if String.eqb (STATE l) "PR" then set_STATE l "HI" else l.

Definition remap_VI (l : LoanRecord) : LoanRecord :=
  if String.eqb (STATE l) "VI" then set_STATE l "HI" else l.

Definition remap (Log_Orig : Table) : Table :=
  map remap_VI (map remap_PR Log_Orig).

End Covariates.

Export Covariates.

(** ** The window feature extractor *)

Module Windows.

(** The HPI table, column by column: each state's column under the index. *)
Definition frame : Type := list (string * series).

(** Selecting a column; a name that is no column is a [KeyError]. *)
Fixpoint column (df : frame) (name : string) : result series :=
  match df with
  | [] => Raise KeyError
  | (n, s) :: df' => if String.eqb n name then Ok s else column df' name
  end.

(** [s.ix[d]]: the value at an index label, a [KeyError] when the label is
    absent. A series has no two rows under one label. *)
Fixpoint ix_at (s : series) (d : date) : result Q :=
  match s with
  | [] => Raise KeyError
  | (k, v) :: s' => if date_eqb k d then Ok v else ix_at s' d
  end.

(** [s.ix[a:b]]: the values whose label lies in the closed range; on a
    sorted index neither bound has to be a label. *)
Definition ix_slice (s : series) (a b : date) : list Q :=
  map snd (filter (fun e => date_leb a (fst e) && date_leb (fst e) b) s).

(** The two values of the argument [series]: ['HPI'] and ['Rate']. *)
Inductive SeriesName : Type := sHPI | sRate.

(** [[
    def minVal(series,origdate,offset,duration,state):
        startdate = dt.date(origdate.year+offset, origdate.month, origdate.day)
        enddate = dt.date(origdate.year+offset+duration, origdate.month, origdate.day)
        if series=='HPI':
            return min(HPI.ix[startdate:enddate,state]) / HPI.ix[startdate,state]
        if series=='Rate':
            return Rates.ix[startdate,'Rate'] - min(Rates.ix[startdate:enddate,'Rate'])
    ]] *)
Definition minVal (HPI : frame) (Rates : series) (series : SeriesName)
           (origdate : date) (offset duration : Z) (state : string) : result Q :=
  startdate <- dt_date (year origdate + offset) (month origdate) (day origdate) ;;
  enddate <- dt_date (year origdate + offset + duration) (month origdate) (day origdate) ;;
  match series with
  | sHPI =>
      window <- column HPI state ;;
      lowest <- py_min (ix_slice window startdate enddate) ;;
      col <- column HPI state ;;
      start <- ix_at col startdate ;;
      Ok (lowest / start)%Q
  | sRate =>
      start <- ix_at Rates startdate ;;
      lowest <- py_min (ix_slice Rates startdate enddate) ;;
      Ok (start - lowest)%Q
  end.

(** [map(lambda x, y: minVal(s,x,offset,duration,y), Log_Orig['ORIG_DTE'], Log_Orig['STATE'])] *)
Definition populate (HPI : frame) (Rates : series) (s : SeriesName)
           (offset duration : Z) (Log_Orig : Table) : result (list Q) :=
  mapM (fun l => minVal HPI Rates s (ORIG_DTE l) offset duration (STATE l)) Log_Orig.

(** The six window columns, in the order the notebook fills them:
    HPI-Y1&2, HPI-Y3&4, HPI-Y5&6, Rate-Y1&2, Rate-Y3&4, Rate-Y5&6. *)
Definition window_features (HPI : frame) (Rates : series) (Log_Orig : Table)
  : result (list (list Q)) :=
  h1 <- populate HPI Rates sHPI 0 2 Log_Orig ;;
  h2 <- populate HPI Rates sHPI 2 2 Log_Orig ;;
  h3 <- populate HPI Rates sHPI 4 2 Log_Orig ;;
  r1 <- populate HPI Rates sRate 0 2 Log_Orig ;;
  r2 <- populate HPI Rates sRate 2 2 Log_Orig ;;
  r3 <- populate HPI Rates sRate 4 2 Log_Orig ;;
  Ok [h1; h2; h3; r1; r2; r3].

End Windows.

Export Windows.

(** ** The response column *)

Module Response.

(** [RESPONSE] of one loan: [ResponseValue] on the loan's own pair of
    [extractDefault] and its origination date. *)
Definition response_of (Perf : list EventRecord) (l : LoanRecord) : result Z :=
  let cd := extractDefault Perf (LOAN_ID l) in
  ResponseValue (fst cd) (ORIG_DTE l) (snd cd).

(** The two columns [DEFAULT.CODE] and [DEFAULT.DATE]. The notebook maps
    [extractDefault] over [Log_Orig['LOAN_ID']], transposes the list of
    pairs with [zip] and unpacks the result into the two columns; over an
    empty table the transposed list is empty and the unpacking into two
    targets raises a [ValueError]. [pd.to_datetime] on [DEFAULT.DATE] keeps a
    date a date and a missing date missing. *)
Definition default_columns (Perf : list EventRecord) (Log_Orig : Table)
  : result (list (option Z) * list (option date)) :=
  match map (fun l => extractDefault Perf (LOAN_ID l)) Log_Orig with
  | [] => Raise ValueError
  | pairs => Ok (map fst pairs, map snd pairs)
  end.

(** [[
    Log_Orig['RESPONSE'] = map(ResponseValue, Log_Orig['DEFAULT.CODE'], Log_Orig['ORIG_DTE'], Log_Orig['DEFAULT.DATE'])
    ]]
    after the two columns have been stored. *)
Definition RESPONSE (Perf : list EventRecord) (Log_Orig : Table) : result (list Z) :=
  cols <- default_columns Perf Log_Orig ;;
  mapM (fun x => ResponseValue (fst (fst x)) (snd (fst x)) (snd x))
       (combine (combine (fst cols) (map ORIG_DTE Log_Orig)) (snd cols)).

End Response.

Export Response.

(** ** Auxiliary definitions for the statements *)

Module Aux.

(** The bucket key of row [j], as a total function. *)
Definition bucket_of (table : Table) (fillVar : FillVar) (j : nat) : string :=
  match Buckets table j fillVar with
  | Ok k => k
  | Raise _ => EmptyString
  end.

(** Whether row [j] falls in the bucket of key [k]. *)
Definition same_bucket (table : Table) (fillVar : FillVar) (k : string) (j : nat) : bool :=
  match Buckets table j fillVar with
  | Ok k' => String.eqb k' k
  | Raise _ => false
  end.

(** The non-missing values of a column among the rows of the bucket [k]. *)
Definition bucket_values (table : Table) (fillVar : FillVar)
           (col : LoanRecord -> option Q) (k : string) : list Q :=
  present (map (col_at col table)
               (filter (same_bucket table fillVar k) (seq 0 (List.length table)))).

(** The column a bucketed pass returns, label by label. *)
Definition filled_at (table : Table) (fillVar : FillVar)
           (col : LoanRecord -> option Q) (i : nat) : option Q :=
  fillna1
    (mean (map (col_at col table)
               (filter (same_bucket table fillVar (bucket_of table fillVar i))
                       (seq 0 (List.length table)))))
    (col_at col table i).

(** The series [minVal] reads: the state's column of the HPI table, or the
    benchmark rates. *)
Definition window_series (HPI : frame) (Rates : series) (s : SeriesName)
           (state : string) : result series :=
  match s with
  | sHPI => column HPI state
  | sRate => Ok Rates
  end.

(** A date is a label of a series. *)
Definition has_label (s : series) (d : date) : Prop := exists v, In (d, v) s.

End Aux.

Export Aux.

(** ** Sample data *)

Module Sample.

Definition jan2005 : date := to_datetime_mY 1 2005.

(** The loan of the notebook's output cell: OCLTV 39, rate 6.25, score 473,
    no DTI. *)
Definition loan_8090 : LoanRecord :=
  mkLoan 830690271521 55000 (Some (625 # 100)) jan2005
         (Some 39%Q) None (Some 473%Q) "FL".

Definition loan_a : LoanRecord :=
  mkLoan 100 120000 (Some (625 # 100)) jan2005
         (Some 39%Q) (Some 30%Q) None "FL".

Definition loan_b : LoanRecord :=
  mkLoan 101 150000 (Some (575 # 100)) jan2005
         (Some 80%Q) (Some 40%Q) (Some 700%Q) "CA".

Definition loan_c : LoanRecord :=
  mkLoan 102 90000 (Some (6 # 1)) jan2005
         (Some 42%Q) None (Some 720%Q) "PR".

Definition loan_d : LoanRecord :=
  mkLoan 103 90000 (Some (625 # 100)) jan2005
         (Some 45%Q) (Some 20%Q) (Some 740%Q) "TX".

(** A loan whose origination rate is missing. *)
Definition loan_norate : LoanRecord :=
  mkLoan 104 80000 None jan2005 (Some 39%Q) (Some 25%Q) (Some 700%Q) "FL".

(** A loan originated in a month for which [rates] has no row. *)
Definition loan_mar2005 : LoanRecord :=
  mkLoan 105 80000 (Some (6 # 1)) (to_datetime_mY 3 2005)
         (Some 60%Q) (Some 25%Q) (Some 700%Q) "FL".

Definition rates : series :=
  [ (mkDate 2005 1 1, 587 # 100); (mkDate 2005 2 1, 563 # 100);
    (mkDate 2006 6 1, 668 # 100); (mkDate 2007 1 1, 622 # 100);
    (mkDate 2008 1 1, 576 # 100); (mkDate 2009 1 1, 505 # 100) ].

Definition hpi : frame :=
  [ ("FL"%string, [ (mkDate 2005 1 1, 100 # 1); (mkDate 2006 1 1, 120 # 1);
                    (mkDate 2007 1 1, 110 # 1) ]);
    ("HI"%string, [ (mkDate 2005 1 1, 90 # 1); (mkDate 2006 1 1, 95 # 1);
                    (mkDate 2007 1 1, 99 # 1) ]) ].

Definition loans : Table := [loan_a; loan_b; loan_c; loan_d].

Definition perf : list EventRecord :=
  [ mkEvent 100 None None;
    mkEvent 101 (Some 1) (Some (mkDate 2006 3 1));
    mkEvent 100 None None ].

End Sample.

From Stdlib Require DecimalPos DecimalZ.

(** ** The report of missing values *)

Module Report.

Definition isnull {A : Type} (o : option A) : bool :=
  match o with Some _ => false | None => true end.

(** The rows the notebook lists before and after the bucketed passes, under
    their index labels:
    [[
    Log_Orig[Log_Orig['OCLTV'].isnull() | Log_Orig['ORIG_RT'].isnull() | Log_Orig['CSCORE_B'].isnull() | Log_Orig['DTI'].isnull()]
    ]] *)
Definition missing_rows (Log_Orig : Table) : list (nat * LoanRecord) :=
  filter (fun p => isnull (OCLTV (snd p)) || isnull (ORIG_RT (snd p))
                   || isnull (CSCORE_B (snd p)) || isnull (DTI (snd p)))
         (combine (seq 0 (List.length Log_Orig)) Log_Orig).

End Report.

Export Report.

(** ** Auxiliary definitions for the further properties *)

Module Aux2.

(** Row [r'] is row [r] with, at most, missing values of the three imputed
    fields filled in. *)
Definition imputed_from (r r' : LoanRecord) : Prop :=
  LOAN_ID r' = LOAN_ID r /\ ORIG_AMT r' = ORIG_AMT r /\ ORIG_RT r' = ORIG_RT r /\
  ORIG_DTE r' = ORIG_DTE r /\ STATE r' = STATE r /\
  (forall q, CSCORE_B r = Some q -> CSCORE_B r' = Some q) /\
  (forall q, DTI r = Some q -> DTI r' = Some q) /\
  (forall q, OCLTV r = Some q -> OCLTV r' = Some q).

(** The table the OCLTV pass reads: [Log_Orig] after the credit-score pass
    and the DTI pass. *)
Definition first_two_passes (Log_Orig : Table) : result Table :=
  c <- groupby_fill Log_Orig fCSCORE CSCORE_B ;;
  let t1 := assign set_CSCORE_B Log_Orig c in
  d <- groupby_fill t1 fDTI DTI ;;
  Ok (assign set_DTI t1 d).

(** A benchmark series has a row dated in the month of a date. *)
Definition has_month (Rates : series) (d : date) : Prop :=
  exists k b, In (k, b) Rates /\ year k = year d /\ month k = month d.

(** A value of ordinary size: below [10^11] in magnitude, so that its band
    is below [10^12] and prints without an exponent. *)
Definition ordinary (q : Q) : Prop :=
  (- (100000000000 # 1) < q)%Q /\ (q < 100000000000 # 1)%Q.

End Aux2.

Export Aux2.

(** ** Characters of a key *)

Module Chars.

(** Whether a character occurs in a text. *)
Fixpoint has_char (c : ascii) (s : string) : bool :=
  match s with
  | EmptyString => false
  | String a s' => Ascii.eqb a c || has_char c s'
  end.

(** The characters of a printed integer: the ten digits and the sign. *)
Definition is_num_char (c : ascii) : bool := has_char c "0123456789-".

(** The first part of a key: the band of the OCLTV for the credit-score
    pass, the band of the credit score for the other two passes, with the
    table mean in the place of a missing value. *)
Definition band (table : Table) (fillVar : FillVar) (r : LoanRecord) : rfloat :=
  match fillVar with
  | fCSCORE => fmul (round_f (odiv (fillna1 (mean (map OCLTV table)) (OCLTV r)) 20)) 20
  | fDTI | fOCLTV =>
      fmul (round_f (odiv (fillna1 (mean (map CSCORE_B table)) (CSCORE_B r)) 50)) 50
  end.

(** The field a pass takes its band from. *)
Definition first_field (fillVar : FillVar) (r : LoanRecord) : option Q :=
  match fillVar with
  | fCSCORE => OCLTV r
  | fDTI | fOCLTV => CSCORE_B r
  end.

End Chars.

Export Chars.

(** ** Further sample data *)

Module Sample2.

(** An event log in which two of the loans of [Sample.loans] exit with a
    qualifying code. *)
Definition perf_exits : list EventRecord :=
  [ mkEvent 100 None None;
    mkEvent 100 (Some 3) (Some (mkDate 2006 5 1));
    mkEvent 101 (Some 1) (Some (mkDate 2006 3 1));
    mkEvent 102 (Some 9) (Some (mkDate 2010 2 1)) ].

(** A loan without an OCLTV and one without a credit score. *)
Definition loan_noocltv : LoanRecord :=
  mkLoan 106 70000 (Some (575 # 100)) Sample.jan2005
         None (Some 35%Q) (Some 680%Q) "TX".

Definition loan_noscore : LoanRecord :=
  mkLoan 107 70000 (Some (6 # 1)) Sample.jan2005
         (Some 75%Q) (Some 35%Q) None "TX".

Definition loans_with_gaps : Table :=
  [Sample.loan_a; Sample.loan_c; loan_noocltv; loan_noscore].

(** A benchmark table dated in the middle of the month. *)
Definition rates_mid_month : series :=
  [ (mkDate 2005 1 15, 587 # 100); (mkDate 2005 2 15, 563 # 100) ].

End Sample2.

(** * Properties *)

(** ** The error monad *)

Lemma mapM_raise {A B : Type} (f : A -> result B) (xs : list A) (e : exn) :
  mapM f xs = Raise e -> exists x, In x xs /\ f x = Raise e.
Proof.
  induction xs as [|x xs IH]; simpl; [discriminate|].
  destruct (f x) as [y|e'] eqn:Hx; simpl.
  - destruct (mapM f xs) as [ys|e'']; simpl; [discriminate|].
    intros H; injection H as ->.
    destruct (IH eq_refl) as (x' & Hin & Hx'). eauto.
  - intros H; injection H as ->. eauto.
Qed.

Lemma mapM_In_raise {A B : Type} (f : A -> result B) (xs : list A) (x : A) (e : exn) :
  In x xs -> f x = Raise e -> exists e', mapM f xs = Raise e'.
Proof.
  induction xs as [|a xs IH]; simpl; [tauto|].
  intros [->|Hin] Hx.
  - rewrite Hx. simpl. eauto.
  - destruct (f a) as [y|e']; simpl; [|eauto].
    destruct (IH Hin Hx) as (e' & ->). simpl. eauto.
Qed.

Lemma mapM_ok {A B : Type} (f : A -> result B) (g : A -> B) (xs : list A) :
  (forall x, In x xs -> f x = Ok (g x)) -> mapM f xs = Ok (map g xs).
Proof.
  induction xs as [|a xs IH]; simpl; intros H; [reflexivity|].
  rewrite (H a (or_introl eq_refl)). simpl.
  rewrite IH by auto. reflexivity.
Qed.

(** ** Dates *)

Lemma date_eqb_eq (a b : date) : date_eqb a b = true <-> a = b.
Proof.
  destruct a as [ya ma da], b as [yb mb db]. unfold date_eqb; simpl.
  rewrite !andb_true_iff, !Z.eqb_eq. split.
  - intros [[-> ->] ->]. reflexivity.
  - intros H; injection H; auto.
Qed.

Lemma date_leb_refl (a : date) : date_leb a a = true.
Proof.
  unfold date_leb. rewrite (proj2 (date_eqb_eq a a) eq_refl). apply orb_true_r.
Qed.

Lemma dt_date_ok (y m d : Z) (t : date) :
  dt_date y m d = Ok t -> t = mkDate y m d /\ valid y m d = true.
Proof.
  unfold dt_date. destruct (valid y m d); [|discriminate].
  intros H; injection H as <-. auto.
Qed.

Lemma dt_date_valid (y m d : Z) :
  valid y m d = true -> dt_date y m d = Ok (mkDate y m d).
Proof. unfold dt_date. intros ->. reflexivity. Qed.

Lemma days_in_month_bounds (y m : Z) : 28 <= days_in_month y m <= 31.
Proof.
  unfold days_in_month.
  destruct (m =? 2); [destruct (is_leap y); lia|].
  destruct ((m =? 4) || (m =? 6) || (m =? 9) || (m =? 11)); lia.
Qed.

Lemma valid_spec (y m d : Z) :
  valid y m d = true <->
  1 <= y <= 9999 /\ 1 <= m <= 12 /\ 1 <= d <= days_in_month y m.
Proof.
  unfold valid. rewrite !andb_true_iff, !Z.leb_le. tauto.
Qed.

Lemma is_leap_mod4 (y : Z) : is_leap y = true -> y mod 4 = 0.
Proof.
  unfold is_leap. rewrite orb_true_iff, andb_true_iff, !Z.eqb_eq.
  intros [[H _]|H]; [exact H|].
  Z.div_mod_to_equations. lia.
Qed.

(** A day of the month that exists both in year [y] and in year [y + 2]
    exists in every year: it is not the 29th of February. *)
Lemma day_in_every_year (y m d k : Z) :
  d <= days_in_month y m -> d <= days_in_month (y + 2) m ->
  d <= days_in_month k m.
Proof.
  unfold days_in_month. destruct (m =? 2); [|auto].
  destruct (is_leap y) eqn:L0; [|destruct (is_leap k); lia].
  destruct (is_leap (y + 2)) eqn:L2; [|destruct (is_leap k); lia].
  apply is_leap_mod4 in L0, L2. Z.div_mod_to_equations. lia.
Qed.

Lemma next_day_valid (t : date) :
  valid_date t = true -> year t < 9999 -> valid_date (next_day t) = true.
Proof.
  destruct t as [y m d]. unfold valid_date, next_day; simpl.
  rewrite valid_spec. intros (Hy & Hm & Hd) Hlt.
  destruct (d <? days_in_month y m) eqn:E; simpl.
  - apply Z.ltb_lt in E. apply valid_spec. lia.
  - destruct (m <? 12) eqn:E'; simpl; apply valid_spec.
    + apply Z.ltb_lt in E'. pose proof (days_in_month_bounds y (m + 1)). lia.
    + pose proof (days_in_month_bounds (y + 1) 1). lia.
Qed.

Lemma next_day_after (t : date) : date_leb (next_day t) t = false.
Proof.
  destruct t as [y m d]. unfold next_day, date_leb, date_ltb, date_eqb; simpl.
  destruct (d <? days_in_month y m); simpl;
    [|destruct (m <? 12); simpl];
    repeat match goal with
           | |- context [?a <? ?b] => destruct (Z.ltb_spec a b)
           | |- context [?a =? ?b] => destruct (Z.eqb_spec a b)
           end; simpl; try reflexivity; lia.
Qed.

Lemma next_day_year (t : date) : year (next_day t) <= year t + 1.
Proof.
  destruct t as [y m d]. unfold next_day; simpl.
  destruct (d <? days_in_month y m); simpl; [lia|].
  destruct (m <? 12); simpl; lia.
Qed.

Lemma earlier_year_leb (a b : date) : year a < year b -> date_leb a b = true.
Proof.
  intros H. unfold date_leb, date_ltb.
  apply Z.ltb_lt in H. rewrite H. reflexivity.
Qed.

(** ** The event labeler *)

Lemma redate_valid (t : date) : valid_date t = true -> redate (Some t) = Ok t.
Proof.
  destruct t as [y m d]. unfold valid_date; simpl. apply dt_date_valid.
Qed.

(** C5. With exit code 3, an exit on the very day the origination date plus
    two years falls on is labelled 1 (the bound is inclusive), and an exit
    on the following day, everything else unchanged, is labelled 2. The
    origination date is a date, and so is the date four years later (the
    years of a [Timestamp] end in 2262, those of [dt.date] in 9999). *)
Theorem ResponseValue_two_year_boundary (OrigDate cutoff : date) :
  valid_date OrigDate = true ->
  dt_date (year OrigDate + 2) (month OrigDate) (day OrigDate) = Ok cutoff ->
  year OrigDate + 4 <= 9999 ->
  ResponseValue (Some 3) OrigDate (Some cutoff) = Ok 1 /\
  ResponseValue (Some 3) OrigDate (Some (next_day cutoff)) = Ok 2.
Proof.
  intros Hv Hc Hy.
  destruct (dt_date_ok _ _ _ _ Hc) as [Hcut Hcv].
  assert (Hcv' : valid_date cutoff = true) by (subst cutoff; exact Hcv).
  unfold ResponseValue; simpl in_369; cbv iota.
  split.
  - rewrite (redate_valid _ Hcv'). simpl. rewrite Hc. simpl.
    rewrite date_leb_refl. reflexivity.
  - assert (Hn : valid_date (next_day cutoff) = true).
    { apply next_day_valid; [exact Hcv'|]. subst cutoff; simpl. lia. }
    rewrite (redate_valid _ Hn). simpl. rewrite Hc. simpl.
    rewrite next_day_after.
    assert (H4 : valid (year OrigDate + 4) (month OrigDate) (day OrigDate) = true).
    { unfold valid_date in Hv. apply valid_spec in Hv, Hcv. apply valid_spec.
      repeat split; try lia.
      apply day_in_every_year with (y := year OrigDate); lia. }
    rewrite (dt_date_valid _ _ _ H4). simpl.
    rewrite earlier_year_leb; [reflexivity|].
    pose proof (next_day_year cutoff) as Hny. subst cutoff; simpl in *. lia.
Qed.

Lemma ResponseValue_two_year_boundary_witness :
  ResponseValue (Some 3) (mkDate 2005 1 1) (Some (mkDate 2007 1 1)) = Ok 1 /\
  ResponseValue (Some 3) (mkDate 2005 1 1) (Some (next_day (mkDate 2007 1 1))) = Ok 2.
Proof.
  apply (ResponseValue_two_year_boundary (mkDate 2005 1 1) (mkDate 2007 1 1)).
  - reflexivity.
  - reflexivity.
  - simpl. lia.
Defined.

Lemma extractDefault_none (Perf : list EventRecord) (ID : Z) :
  (forall r, In r Perf -> ev_LOAN_ID r = ID -> ZB_DTE r = None) ->
  extractDefault Perf ID = (None, None).
Proof.
  intros H. unfold extractDefault.
  destruct (filter _ Perf) as [|r a] eqn:E; [reflexivity|].
  assert (Hin : In r (filter (fun r => (ev_LOAN_ID r =? ID) && notnull (ZB_DTE r)) Perf))
    by (rewrite E; left; reflexivity).
  apply filter_In in Hin. destruct Hin as [Hin Hp].
  apply andb_true_iff in Hp. destruct Hp as [Hid Hnn].
  apply Z.eqb_eq in Hid. rewrite (H r Hin Hid) in Hnn. discriminate.
Qed.

Lemma extractDefault_date (Perf : list EventRecord) (ID : Z) :
  extractDefault Perf ID = (None, None) \/
  exists d, snd (extractDefault Perf ID) = Some d.
Proof.
  unfold extractDefault.
  destruct (filter _ Perf) as [|r a] eqn:E; [left; reflexivity|right].
  assert (Hin : In r (filter (fun r => (ev_LOAN_ID r =? ID) && notnull (ZB_DTE r)) Perf))
    by (rewrite E; left; reflexivity).
  apply filter_In in Hin. destruct Hin as [_ Hp].
  apply andb_true_iff in Hp. destruct Hp as [_ Hnn]. simpl.
  destruct (ZB_DTE r) as [d|]; [eauto|discriminate].
Qed.

Lemma ResponseValue_not_qualifying (Code : option Z) (OrigDate : date)
      (DefDate : option date) :
  in_369 Code = false -> ResponseValue Code OrigDate DefDate = Ok 0.
Proof. unfold ResponseValue. intros ->. reflexivity. Qed.

(** C9. The label is 0 for every exit code outside 3, 6 and 9 (a missing
    code included), whatever the exit date, and for every loan without a
    dated row in the event log, for which [extractDefault] returns a missing
    code and a missing date. *)
Theorem ResponseValue_zero_label :
  (forall (Code : option Z) (OrigDate : date) (DefDate : option date),
      Code <> Some 3 -> Code <> Some 6 -> Code <> Some 9 ->
      ResponseValue Code OrigDate DefDate = Ok 0) /\
  (forall (Perf : list EventRecord) (l : LoanRecord),
      (forall r, In r Perf -> ev_LOAN_ID r = LOAN_ID l -> ZB_DTE r = None) ->
      extractDefault Perf (LOAN_ID l) = (None, None) /\
      response_of Perf l = Ok 0).
Proof.
  split.
  - intros Code OrigDate DefDate H3 H6 H9.
    apply ResponseValue_not_qualifying.
    destruct Code as [c|]; [|reflexivity]. simpl.
    destruct (Z.eqb_spec c 3); [congruence|].
    destruct (Z.eqb_spec c 6); [congruence|].
    destruct (Z.eqb_spec c 9); [congruence|]. reflexivity.
  - intros Perf l H.
    pose proof (extractDefault_none Perf (LOAN_ID l) H) as E.
    split; [exact E|]. unfold response_of. rewrite E. reflexivity.
Qed.

Lemma ResponseValue_zero_label_witness :
  ResponseValue (Some 99) Sample.jan2005 (Some (mkDate 2006 3 1)) = Ok 0 /\
  extractDefault Sample.perf (LOAN_ID Sample.loan_a) = (None, None) /\
  response_of Sample.perf Sample.loan_a = Ok 0.
Proof.
  destruct ResponseValue_zero_label as [H1 H2]. split.
  - apply H1; discriminate.
  - apply H2. simpl. intros r [<-|[<-|[<-|[]]]] Hid; simpl in *;
      [reflexivity|discriminate|reflexivity].
Defined.

Lemma mapM_columns {A B : Type} (code : A -> option Z) (orig : A -> date)
      (exit : A -> option date) (f : option Z -> date -> option date -> result B)
      (xs : list A) :
  mapM (fun x => f (fst (fst x)) (snd (fst x)) (snd x))
       (combine (combine (map code xs) (map orig xs)) (map exit xs))
  = mapM (fun a => f (code a) (orig a) (exit a)) xs.
Proof.
  induction xs as [|a xs IH]; simpl; [reflexivity|].
  rewrite IH. reflexivity.
Qed.

(** The response column of a table with a loan is the [map] of the loans'
    own responses; the one of the empty table is not computed. *)
Lemma RESPONSE_rows (Perf : list EventRecord) (Log_Orig : Table) :
  RESPONSE Perf Log_Orig
  = match Log_Orig with
    | [] => Raise ValueError
    | _ => mapM (response_of Perf) Log_Orig
    end.
Proof.
  unfold RESPONSE, default_columns.
  destruct Log_Orig as [|l t]; [reflexivity|].
  set (T := l :: t). change (map (fun l0 => extractDefault Perf (LOAN_ID l0)) T)
    with (extractDefault Perf (LOAN_ID l)
            :: map (fun l0 => extractDefault Perf (LOAN_ID l0)) t).
  cbv iota. cbv beta.
  change (extractDefault Perf (LOAN_ID l)
            :: map (fun l0 => extractDefault Perf (LOAN_ID l0)) t)
    with (map (fun l0 => extractDefault Perf (LOAN_ID l0)) T).
  simpl bind. simpl fst. simpl snd. rewrite !map_map.
  apply (mapM_columns (fun l0 => fst (extractDefault Perf (LOAN_ID l0))) ORIG_DTE
           (fun l0 => snd (extractDefault Perf (LOAN_ID l0))) ResponseValue T).
Qed.

(** C10. [extractDefault] returns an exit code only together with an exit
    date, so [ResponseValue], called on its pair, never rebuilds a date from
    a missing one: neither the label of a loan nor the whole response column
    fails with the [TypeError] of a missing date. *)
Theorem extractDefault_code_has_date (Perf : list EventRecord) :
  (forall (ID c : Z),
      fst (extractDefault Perf ID) = Some c ->
      exists d, snd (extractDefault Perf ID) = Some d) /\
  (forall l : LoanRecord, response_of Perf l <> Raise TypeError) /\
  (forall Log_Orig : Table, RESPONSE Perf Log_Orig <> Raise TypeError).
Proof.
  assert (H1 : forall ID c, fst (extractDefault Perf ID) = Some c ->
                            exists d, snd (extractDefault Perf ID) = Some d).
  { intros ID c Hc. destruct (extractDefault_date Perf ID) as [E|E]; [|exact E].
    rewrite E in Hc. discriminate. }
  assert (H2 : forall l, response_of Perf l <> Raise TypeError).
  { intros l. unfold response_of, ResponseValue.
    destruct (in_369 (fst (extractDefault Perf (LOAN_ID l)))) eqn:Hq; [|discriminate].
    destruct (fst (extractDefault Perf (LOAN_ID l))) as [c|] eqn:Hc; [|discriminate].
    destruct (H1 _ _ Hc) as [d ->]. unfold redate, dt_date.
    repeat match goal with
           | |- context [if ?b then _ else _] => destruct b; simpl
           end; discriminate. }
  split; [exact H1|]. split; [exact H2|].
  intros Log_Orig H. rewrite RESPONSE_rows in H.
  destruct Log_Orig as [|l0 t]; [discriminate|].
  apply mapM_raise in H. destruct H as (l & _ & Hl).
  exact (H2 l Hl).
Qed.

Lemma extractDefault_code_has_date_witness :
  exists d, snd (extractDefault Sample.perf 101) = Some d.
Proof.
  apply (proj1 (extractDefault_code_has_date Sample.perf) 101 1). reflexivity.
Defined.

(** ** Columns *)

Lemma present_nil_iff (xs : list (option Q)) :
  present xs = [] <-> forall v, In v xs -> v = None.
Proof.
  induction xs as [|[q|] xs IH]; simpl.
  - split; [intros _ v []|reflexivity].
  - split; [discriminate|]. intros H. specialize (H (Some q) (or_introl eq_refl)).
    discriminate.
  - rewrite IH. split.
    + intros H v [<-|Hin]; auto.
    + intros H v Hin. auto.
Qed.

Lemma mean_eq (xs : list (option Q)) :
  present xs <> [] ->
  mean xs = Some (Qsum (present xs) / inject_Z (Z.of_nat (List.length (present xs))))%Q.
Proof. unfold mean. destruct (present xs); [congruence|reflexivity]. Qed.

Lemma mean_none_iff (xs : list (option Q)) :
  mean xs = None <-> forall v, In v xs -> v = None.
Proof.
  rewrite <- present_nil_iff. unfold mean.
  destruct (present xs); split; congruence.
Qed.

Lemma fillna1_some (m : option Q) (q : Q) : fillna1 m (Some q) = Some q.
Proof. reflexivity. Qed.

(** ** Grouping *)

Section Grouping.

Variable vals : nat -> option Q.

Lemma assoc_app (i : nat) (s1 s2 : list (nat * option Q)) :
  assoc i (s1 ++ s2) =
  match assoc i s1 with
  | Some v => Some v
  | None => assoc i s2
  end.
Proof.
  induction s1 as [|[j v] s1 IH]; simpl; [reflexivity|].
  destruct (Nat.eqb j i); [reflexivity|exact IH].
Qed.

Lemma assoc_filled_in (m : option Q) (js : list nat) (i : nat) :
  In i js ->
  assoc i (combine js (fillna (map vals js) m)) = Some (fillna1 m (vals i)).
Proof.
  induction js as [|j js IH]; simpl; [tauto|].
  destruct (Nat.eqb_spec j i) as [->|Hne]; [reflexivity|].
  intros [Heq|Hin]; [contradiction|]. exact (IH Hin).
Qed.

Lemma assoc_not_in (js : list nat) (vs : list (option Q)) (i : nat) :
  ~ In i js -> assoc i (combine js vs) = None.
Proof.
  revert vs. induction js as [|j js IH]; intros [|v vs]; simpl; try reflexivity.
  intros Hn. destruct (Nat.eqb_spec j i) as [->|_]; [tauto|].
  apply IH. tauto.
Qed.

Lemma members_In (k : string) (keyed : list (nat * string)) (i : nat) :
  In i (members k keyed) <-> In (i, k) keyed.
Proof.
  unfold members. rewrite in_map_iff. split.
  - intros ([j k'] & Hj & Hin). simpl in Hj. subst j.
    apply filter_In in Hin. destruct Hin as [Hin Hk]. simpl in Hk.
    apply String.eqb_eq in Hk. subst k'. exact Hin.
  - intros Hin. exists (i, k). split; [reflexivity|].
    apply filter_In. split; [exact Hin|]. simpl. apply String.eqb_refl.
Qed.

(** Looking a label up in the concatenation of the filled groups finds the
    label's own group. *)
Lemma align_groups (keyed : list (nat * string)) (i : nat) (k : string)
      (ks : list string) :
  In (i, k) keyed ->
  (forall k', In (i, k') keyed -> k' = k) ->
  In k ks ->
  align (flat_map (apply_fill vals) (map (fun k => (k, members k keyed)) ks)) i
  = fillna1 (mean (map vals (members k keyed))) (vals i).
Proof.
  intros Hin Huniq. unfold align.
  induction ks as [|k0 ks IH]; simpl; [tauto|].
  intros Hk. rewrite assoc_app. unfold apply_fill at 1, fill_mean; simpl.
  destruct (string_dec k0 k) as [->|Hne].
  - rewrite assoc_filled_in by (apply members_In; exact Hin). reflexivity.
  - rewrite assoc_not_in.
    + apply IH. destruct Hk as [Hk|Hk]; [contradiction|exact Hk].
    + intros Hm. apply members_In in Hm. apply Hne. exact (Huniq _ Hm).
Qed.

Lemma align_groupby (keyed : list (nat * string)) (i : nat) (k : string) :
  In (i, k) keyed ->
  (forall k', In (i, k') keyed -> k' = k) ->
  align (flat_map (apply_fill vals) (groupby keyed)) i
  = fillna1 (mean (map vals (members k keyed))) (vals i).
Proof.
  intros Hin Huniq. unfold groupby.
  apply align_groups; [exact Hin|exact Huniq|].
  apply nodup_In. apply in_map_iff. exists (i, k). auto.
Qed.

End Grouping.

Lemma in_combine_map {A B : Type} (f : A -> B) (xs : list A) (x : A) (y : B) :
  In (x, y) (combine xs (map f xs)) <-> In x xs /\ y = f x.
Proof.
  induction xs as [|a xs IH]; simpl; [tauto|].
  rewrite IH. split.
  - intros [H|[H1 H2]]; [injection H as <- <-; auto|auto].
  - intros [[->|H1] ->]; auto.
Qed.

Lemma members_combine_map (f : nat -> string) (k : string) (xs : list nat) :
  members k (combine xs (map f xs)) = filter (fun j => String.eqb (f j) k) xs.
Proof.
  unfold members. induction xs as [|a xs IH]; simpl; [reflexivity|].
  destruct (String.eqb (f a) k); simpl; rewrite IH; reflexivity.
Qed.

(** ** The bucketed passes *)

Lemma loc_in_range (table : Table) (x : nat) :
  (x < List.length table)%nat -> exists r, nth_error table x = Some r.
Proof.
  intros H. destruct (nth_error table x) as [r|] eqn:E; [eauto|].
  apply nth_error_None in E. lia.
Qed.

Lemma Buckets_total (table : Table) (fillVar : FillVar) (x : nat) :
  (x < List.length table)%nat ->
  Buckets table x fillVar = Ok (bucket_of table fillVar x).
Proof.
  intros H. destruct (loc_in_range table x H) as [r Hr].
  unfold bucket_of, Buckets, loc. rewrite Hr.
  destruct fillVar; reflexivity.
Qed.

Lemma same_bucket_bucket_of (table : Table) (fillVar : FillVar) (k : string) (j : nat) :
  (j < List.length table)%nat ->
  same_bucket table fillVar k j = String.eqb (bucket_of table fillVar j) k.
Proof.
  intros H. unfold same_bucket. rewrite (Buckets_total table fillVar j H).
  reflexivity.
Qed.

Lemma groupby_fill_spec (table : Table) (fillVar : FillVar)
      (col : LoanRecord -> option Q) :
  groupby_fill table fillVar col
  = Ok (map (filled_at table fillVar col) (seq 0 (List.length table))).
Proof.
  unfold groupby_fill.
  rewrite (mapM_ok _ (bucket_of table fillVar)).
  2:{ intros x Hx. apply in_seq in Hx. apply Buckets_total. lia. }
  simpl. f_equal. apply map_ext_in. intros i Hi.
  rewrite (align_groupby _ _ i (bucket_of table fillVar i)).
  - unfold filled_at. rewrite members_combine_map. do 3 f_equal.
    apply filter_ext_in. intros j Hj. apply in_seq in Hj.
    symmetry. apply same_bucket_bucket_of. lia.
  - apply in_combine_map. auto.
  - intros k' Hk'. apply in_combine_map in Hk'. tauto.
Qed.

Lemma nth_error_filled (table : Table) (fillVar : FillVar)
      (col : LoanRecord -> option Q) (i : nat) :
  (i < List.length table)%nat ->
  nth_error (map (filled_at table fillVar col) (seq 0 (List.length table))) i
  = Some (filled_at table fillVar col i).
Proof.
  intros H. rewrite nth_error_map, nth_error_seq.
  destruct (Nat.ltb_spec i (List.length table)); [reflexivity|lia].
Qed.

(** C4. A bucketed pass gives a record whose target field is missing the
    arithmetic mean of the non-missing values of that field among the
    records of its bucket, whenever the bucket has such a value. *)
Theorem groupby_fill_bucket_mean (table : Table) (fillVar : FillVar)
        (col : LoanRecord -> option Q) (i : nat) (r : LoanRecord) (k : string) :
  nth_error table i = Some r ->
  col r = None ->
  Buckets table i fillVar = Ok k ->
  bucket_values table fillVar col k <> [] ->
  exists filled,
    groupby_fill table fillVar col = Ok filled /\
    nth_error filled i
    = Some (Some (Qsum (bucket_values table fillVar col k)
                  / inject_Z (Z.of_nat (List.length (bucket_values table fillVar col k))))%Q).
Proof.
  intros Hr Hmiss Hk Hne.
  assert (Hi : (i < List.length table)%nat)
    by (apply nth_error_Some; congruence).
  exists (map (filled_at table fillVar col) (seq 0 (List.length table))).
  split; [apply groupby_fill_spec|].
  rewrite nth_error_filled by exact Hi. f_equal.
  unfold filled_at, col_at at 2. rewrite Hr, Hmiss. simpl.
  assert (Hb : bucket_of table fillVar i = k)
    by (unfold bucket_of; rewrite Hk; reflexivity).
  rewrite Hb. apply mean_eq. exact Hne.
Qed.

Lemma groupby_fill_bucket_mean_witness :
  exists filled,
    groupby_fill Sample.loans fCSCORE CSCORE_B = Ok filled /\
    nth_error filled 0
    = Some (Some (Qsum (bucket_values Sample.loans fCSCORE CSCORE_B "OCLTV-40.0/Rate-6.0")
                  / inject_Z (Z.of_nat (List.length
                       (bucket_values Sample.loans fCSCORE CSCORE_B "OCLTV-40.0/Rate-6.0"))))%Q).
Proof.
  apply (groupby_fill_bucket_mean Sample.loans fCSCORE CSCORE_B 0 Sample.loan_a).
  - reflexivity.
  - reflexivity.
  - vm_compute. reflexivity.
  - vm_compute. discriminate.
Defined.

Example bucket_values_loans :
  bucket_values Sample.loans fCSCORE CSCORE_B "OCLTV-40.0/Rate-6.0"
  = [720 # 1; 740 # 1]%Q.
Proof. vm_compute. reflexivity. Qed.

(** The notebook's example: OCLTV 39 and rate 6.25 give the bucket of
    OCLTV 40 and rate 6. *)
Example Buckets_loan_8090 :
  Buckets [Sample.loan_8090] 0 fCSCORE = Ok "OCLTV-40.0/Rate-6.0"%string.
Proof. vm_compute. reflexivity. Qed.

Lemma isnan_rounded (v : option Q) (w : Z) :
  isnan (fmul (round_f v) w) = match v with Some _ => false | None => true end.
Proof.
  destruct v as [q|]; simpl; [|reflexivity].
  destruct ((py_round q =? 0) && negb (Qle_bool 0 q)); reflexivity.
Qed.

(** C3, as the notebook has it. [Buckets] gives every record of the table a
    key. When the first bucketing field (OCLTV for the credit-score pass,
    the credit score for the DTI and OCLTV passes) is missing, the table
    mean of that field takes its place, rounded at the same granularity;
    the rate enters the key rounded, as it is. *)
Theorem Buckets_key (table : Table) (x : nat) (r : LoanRecord) :
  nth_error table x = Some r ->
  Buckets table x fCSCORE
  = Ok ("OCLTV-"
          ++ str (fmul (round_f (odiv (fillna1 (mean (map OCLTV table)) (OCLTV r)) 20)) 20)
          ++ "/Rate-" ++ str (round_f (ORIG_RT r)))%string /\
  Buckets table x fDTI
  = Ok ("FICO-"
          ++ str (fmul (round_f (odiv (fillna1 (mean (map CSCORE_B table)) (CSCORE_B r)) 50)) 50)
          ++ "/Rate-" ++ str (round_f (ORIG_RT r)))%string /\
  Buckets table x fOCLTV = Buckets table x fDTI.
Proof.
  intros Hr. unfold Buckets, loc. rewrite Hr. simpl.
  rewrite !isnan_rounded.
  destruct (OCLTV r), (CSCORE_B r); simpl; auto.
Qed.

Lemma Buckets_key_witness :
  Buckets Sample.loans 0 fCSCORE = Ok "OCLTV-40.0/Rate-6.0"%string /\
  Buckets Sample.loans 0 fDTI = Ok "FICO-700.0/Rate-6.0"%string.
Proof.
  destruct (Buckets_key Sample.loans 0 Sample.loan_a eq_refl) as (H1 & H2 & _).
  split; [rewrite H1|rewrite H2]; vm_compute; reflexivity.
Defined.

(** C3, as stated, fails: a record without a rate is not keyed by the table
    mean of the rate but by the text [nan]. *)
Lemma Buckets_missing_rate_counterexample :
  Buckets [Sample.loan_norate; Sample.loan_d] 0 fCSCORE
  = Ok "OCLTV-40.0/Rate-nan"%string /\
  Buckets_as_specified [Sample.loan_norate; Sample.loan_d] 0 fCSCORE
  = Ok "OCLTV-40.0/Rate-6.0"%string /\
  Buckets [Sample.loan_norate; Sample.loan_d] 0 fCSCORE
  <> Buckets_as_specified [Sample.loan_norate; Sample.loan_d] 0 fCSCORE.
Proof.
  split; [vm_compute; reflexivity|].
  split; [vm_compute; reflexivity|].
  vm_compute. discriminate.
Qed.

(** ** The whole imputation *)

Section Assign.

Variable set : LoanRecord -> option Q -> LoanRecord.

Lemma length_assign (t : Table) (c : list (option Q)) :
  List.length t = List.length c -> List.length (assign set t c) = List.length t.
Proof.
  intros H. unfold assign. rewrite length_map, length_combine. lia.
Qed.

Lemma map_assign_other {A : Type} (f : LoanRecord -> A) :
  (forall r v, f (set r v) = f r) ->
  forall (t : Table) (c : list (option Q)),
    List.length t = List.length c -> map f (assign set t c) = map f t.
Proof.
  intros Hf. unfold assign.
  induction t as [|r t IH]; intros [|v c] Hlen; simpl in *; try discriminate;
    [reflexivity|].
  rewrite Hf, IH by lia. reflexivity.
Qed.

Lemma map_assign_same (f : LoanRecord -> option Q) :
  (forall r v, f (set r v) = v) ->
  forall (t : Table) (c : list (option Q)),
    List.length t = List.length c -> map f (assign set t c) = c.
Proof.
  intros Hf. unfold assign.
  induction t as [|r t IH]; intros [|v c] Hlen; simpl in *; try discriminate;
    [reflexivity|].
  rewrite Hf, IH by lia. reflexivity.
Qed.

End Assign.

Section FilledColumn.

Variables (table : Table) (fillVar : FillVar) (col : LoanRecord -> option Q).

Let filled : list (option Q) :=
  map (filled_at table fillVar col) (seq 0 (List.length table)).

Lemma length_filled : List.length table = List.length filled.
Proof. unfold filled. rewrite length_map, length_seq. reflexivity. Qed.

(** A bucketed pass keeps the values that are there. *)
Lemma filled_keeps (q : Q) : In (Some q) (map col table) -> In (Some q) filled.
Proof.
  intros Hin. apply In_nth_error in Hin. destruct Hin as [i Hi].
  assert (Hlt : (i < List.length table)%nat).
  { rewrite <- (length_map col). apply nth_error_Some. congruence. }
  apply nth_error_In with (n := i). unfold filled.
  rewrite nth_error_filled by exact Hlt. f_equal.
  rewrite nth_error_map in Hi.
  unfold filled_at, col_at at 2.
  destruct (nth_error table i) as [r|]; simpl in Hi; [|discriminate].
  injection Hi as ->. reflexivity.
Qed.

Lemma col_at_all_missing (j : nat) :
  (forall v, In v (map col table) -> v = None) -> col_at col table j = None.
Proof.
  intros H. unfold col_at. destruct (nth_error table j) as [r|] eqn:E; [|reflexivity].
  apply H. apply in_map. eapply nth_error_In. exact E.
Qed.

(** A column with no value at all comes back unchanged. *)
Lemma filled_all_missing :
  (forall v, In v (map col table) -> v = None) ->
  forall v, In v filled -> v = None.
Proof.
  intros H v Hin. unfold filled in Hin. apply in_map_iff in Hin.
  destruct Hin as (i & <- & _). unfold filled_at.
  rewrite (col_at_all_missing i H). simpl.
  apply mean_none_iff. intros w Hw. apply in_map_iff in Hw.
  destruct Hw as (j & <- & _). apply col_at_all_missing. exact H.
Qed.

End FilledColumn.

Lemma fill_mean_total (xs : list (option Q)) (q : Q) :
  In (Some q) xs -> forall v, In v (fill_mean xs) -> v <> None.
Proof.
  intros Hq v Hin. unfold fill_mean, fillna in Hin. apply in_map_iff in Hin.
  destruct Hin as (w & <- & _).
  destruct w as [x|]; simpl; [discriminate|].
  intros Hm. pose proof (proj1 (mean_none_iff xs) Hm _ Hq). discriminate.
Qed.

Lemma fill_mean_all_missing (xs : list (option Q)) :
  (forall v, In v xs -> v = None) -> forall v, In v (fill_mean xs) -> v = None.
Proof.
  intros H v Hin. unfold fill_mean, fillna in Hin. apply in_map_iff in Hin.
  destruct Hin as (w & <- & Hw).
  rewrite (H w Hw). simpl. apply mean_none_iff. exact H.
Qed.

(** The DTI column at the end of section 1 is the DTI column of the second
    bucketed pass, filled with its own mean. *)
Lemma impute_DTI_column (Log_Orig : Table) :
  exists (t1 t : Table),
    impute Log_Orig = Ok t /\
    List.length t = List.length Log_Orig /\
    List.length t1 = List.length Log_Orig /\
    map DTI t1 = map DTI Log_Orig /\
    map DTI t
    = fill_mean (map (filled_at t1 fDTI DTI) (seq 0 (List.length t1))).
Proof.
  unfold impute, bucketed_passes.
  rewrite groupby_fill_spec. simpl.
  set (c := map (filled_at Log_Orig fCSCORE CSCORE_B) _).
  set (t1 := assign set_CSCORE_B Log_Orig c).
  assert (L1 : List.length t1 = List.length Log_Orig)
    by (apply length_assign, length_filled).
  rewrite groupby_fill_spec. simpl.
  set (d := map (filled_at t1 fDTI DTI) _).
  set (t2 := assign set_DTI t1 d).
  assert (Ld : List.length t1 = List.length d) by apply length_filled.
  assert (L2 : List.length t2 = List.length t1) by (apply length_assign, Ld).
  rewrite groupby_fill_spec. simpl.
  set (o := map (filled_at t2 fOCLTV OCLTV) _).
  set (t3 := assign set_OCLTV t2 o).
  assert (Lo : List.length t2 = List.length o) by apply length_filled.
  assert (L3 : List.length t3 = List.length t2) by (apply length_assign, Lo).
  assert (D3 : map DTI t3 = d).
  { unfold t3. rewrite map_assign_other by (auto || reflexivity).
    unfold t2. apply map_assign_same; auto. }
  exists t1, (global_mean_DTI t3).
  assert (Lg : List.length (fillna (map DTI t3) (mean (map DTI t3))) = List.length t3)
    by (unfold fillna; rewrite !length_map; reflexivity).
  repeat split.
  - unfold global_mean_DTI. rewrite length_assign by (symmetry; exact Lg). lia.
  - exact L1.
  - unfold t1. apply map_assign_other; [reflexivity|apply length_filled].
  - unfold global_mean_DTI. rewrite map_assign_same by (auto; symmetry; exact Lg).
    rewrite D3. reflexivity.
Qed.

Lemma filled_at_no_value (table : Table) (fillVar : FillVar)
      (col : LoanRecord -> option Q) (i : nat) (r : LoanRecord) :
  nth_error table i = Some r ->
  col r = None ->
  bucket_values table fillVar col (bucket_of table fillVar i) = [] ->
  filled_at table fillVar col i = None.
Proof.
  intros Hr Hc Hb. unfold filled_at.
  assert (E : col_at col table i = None) by (unfold col_at; rewrite Hr; exact Hc).
  rewrite E. simpl. unfold mean. unfold bucket_values in Hb. rewrite Hb. reflexivity.
Qed.

Lemma nth_error_column (col : LoanRecord -> option Q) (t : Table) (i : nat)
      (v : option Q) :
  nth_error (map col t) i = Some v -> exists r, nth_error t i = Some r /\ col r = v.
Proof.
  rewrite nth_error_map. destruct (nth_error t i) as [r|]; simpl; [|discriminate].
  intros H; injection H as <-. eauto.
Qed.

(** The credit-score column and the OCLTV column at the end of section 1
    are the columns their bucketed passes returned. *)
Lemma impute_other_columns (Log_Orig : Table) :
  exists (t2 t : Table),
    first_two_passes Log_Orig = Ok t2 /\
    impute Log_Orig = Ok t /\
    List.length t2 = List.length Log_Orig /\
    map OCLTV t2 = map OCLTV Log_Orig /\
    map CSCORE_B t
    = map (filled_at Log_Orig fCSCORE CSCORE_B) (seq 0 (List.length Log_Orig)) /\
    map OCLTV t = map (filled_at t2 fOCLTV OCLTV) (seq 0 (List.length t2)).
Proof.
  unfold impute, bucketed_passes, first_two_passes.
  rewrite groupby_fill_spec. simpl.
  set (c := map (filled_at Log_Orig fCSCORE CSCORE_B) _).
  set (t1 := assign set_CSCORE_B Log_Orig c).
  assert (L1 : List.length t1 = List.length Log_Orig)
    by (apply length_assign, length_filled).
  rewrite groupby_fill_spec. simpl.
  set (d := map (filled_at t1 fDTI DTI) _).
  set (t2 := assign set_DTI t1 d).
  assert (Ld : List.length t1 = List.length d) by apply length_filled.
  assert (L2 : List.length t2 = List.length t1) by (apply length_assign, Ld).
  rewrite groupby_fill_spec. simpl.
  set (o := map (filled_at t2 fOCLTV OCLTV) _).
  set (t3 := assign set_OCLTV t2 o).
  assert (Lo : List.length t2 = List.length o) by apply length_filled.
  assert (Lg : List.length t3
               = List.length (fillna (map DTI t3) (mean (map DTI t3))))
    by (unfold fillna; rewrite !length_map; reflexivity).
  exists t2, (global_mean_DTI t3).
  split; [reflexivity|]. split; [reflexivity|]. split; [lia|].
  split; [|split].
  - unfold t2. rewrite map_assign_other by (auto || reflexivity).
    unfold t1. apply map_assign_other; [reflexivity|apply length_filled].
  - unfold global_mean_DTI. rewrite map_assign_other by (auto || reflexivity).
    unfold t3. rewrite map_assign_other by (auto || reflexivity).
    unfold t2. rewrite map_assign_other by (auto || reflexivity).
    unfold t1. apply map_assign_same; [reflexivity|apply length_filled].
  - unfold global_mean_DTI. rewrite map_assign_other by (auto || reflexivity).
    unfold t3. apply map_assign_same; [reflexivity|exact Lo].
Qed.

(** C2, as the notebook has it. The three bucketed passes are followed by
    one global-mean pass, on DTI only. Section 1 always returns a table, of
    the size of its input; in it no DTI is missing as soon as one record of
    the input has a DTI, and every DTI is missing when none has. The credit
    score and the OCLTV get no global-mean pass: a record without a credit
    score whose bucket has no credit score, and a record without an OCLTV
    whose bucket, in the table the OCLTV pass reads, has no OCLTV, are
    still without it in the table returned. *)
Theorem impute_DTI_filled (Log_Orig : Table) :
  exists t : Table,
    impute Log_Orig = Ok t /\
    List.length t = List.length Log_Orig /\
    ((exists r, In r Log_Orig /\ DTI r <> None) ->
     forall r, In r t -> DTI r <> None) /\
    ((forall r, In r Log_Orig -> DTI r = None) ->
     forall r, In r t -> DTI r = None) /\
    (forall i r,
        nth_error Log_Orig i = Some r ->
        CSCORE_B r = None ->
        bucket_values Log_Orig fCSCORE CSCORE_B (bucket_of Log_Orig fCSCORE i) = [] ->
        exists r', nth_error t i = Some r' /\ CSCORE_B r' = None) /\
    (exists t2 : Table,
        first_two_passes Log_Orig = Ok t2 /\
        forall i r,
          nth_error Log_Orig i = Some r ->
          OCLTV r = None ->
          bucket_values t2 fOCLTV OCLTV (bucket_of t2 fOCLTV i) = [] ->
          exists r', nth_error t i = Some r' /\ OCLTV r' = None).
Proof.
  destruct (impute_DTI_column Log_Orig) as (t1 & t & Ht & Hlen & _ & H1 & HD).
  destruct (impute_other_columns Log_Orig)
    as (t2 & t' & Ht2 & Ht' & L2 & HO2 & HC & HO).
  rewrite Ht in Ht'. injection Ht' as <-.
  exists t. split; [exact Ht|]. split; [exact Hlen|].
  split; [|split; [|split]].
  - intros (r0 & Hin0 & Hr0) r Hr.
    destruct (DTI r0) as [q|] eqn:Eq; [|congruence].
    assert (Hq : In (Some q) (map DTI t1)).
    { rewrite H1, <- Eq. apply in_map. exact Hin0. }
    apply filled_keeps with (fillVar := fDTI) in Hq.
    apply (fill_mean_total _ q Hq). rewrite <- HD. apply in_map. exact Hr.
  - intros Hnone r Hr.
    apply (fill_mean_all_missing
             (map (filled_at t1 fDTI DTI) (seq 0 (List.length t1)))).
    + apply filled_all_missing. rewrite H1. intros v Hv.
      apply in_map_iff in Hv. destruct Hv as (r' & <- & Hr'). auto.
    + rewrite <- HD. apply in_map. exact Hr.
  - intros i r Hr Hc Hb.
    assert (Hi : (i < List.length Log_Orig)%nat)
      by (apply nth_error_Some; congruence).
    apply nth_error_column. rewrite HC, nth_error_filled by exact Hi.
    f_equal. apply (filled_at_no_value _ _ _ i r Hr Hc Hb).
  - exists t2. split; [exact Ht2|]. intros i r Hr Ho Hb.
    assert (Hi : (i < List.length t2)%nat)
      by (rewrite L2; apply nth_error_Some; congruence).
    destruct (loc_in_range t2 i Hi) as [r2 Hr2].
    assert (Ho2 : OCLTV r2 = None).
    { assert (E : nth_error (map OCLTV t2) i = nth_error (map OCLTV Log_Orig) i)
        by (rewrite HO2; reflexivity).
      rewrite !nth_error_map, Hr, Hr2 in E. simpl in E. congruence. }
    apply nth_error_column. rewrite HO, nth_error_filled by exact Hi.
    f_equal. apply (filled_at_no_value _ _ _ i r2 Hr2 Ho2 Hb).
Qed.

Lemma impute_DTI_filled_witness :
  (exists t : Table,
      impute [Sample.loan_a; Sample.loan_b] = Ok t /\
      (forall r, In r t -> DTI r <> None) /\
      (exists r', nth_error t 0 = Some r' /\ CSCORE_B r' = None)) /\
  (exists t : Table,
      impute [Sample2.loan_noocltv; Sample.loan_d] = Ok t /\
      (exists r', nth_error t 0 = Some r' /\ OCLTV r' = None)).
Proof.
  split.
  - destruct (impute_DTI_filled [Sample.loan_a; Sample.loan_b])
      as (t & Ht & _ & Hfill & _ & Hscore & _).
    exists t. split; [exact Ht|]. split.
    + apply Hfill. exists Sample.loan_b. split; [simpl; auto|discriminate].
    + apply (Hscore 0%nat Sample.loan_a); reflexivity.
  - destruct (impute_DTI_filled [Sample2.loan_noocltv; Sample.loan_d])
      as (t & Ht & _ & _ & _ & _ & t2 & Ht2 & Hltv).
    exists t. split; [exact Ht|].
    apply (Hltv 0%nat Sample2.loan_noocltv); [reflexivity|reflexivity|].
    vm_compute in Ht2. injection Ht2 as <-. reflexivity.
Defined.

(** C2, as stated, fails: a credit score alone in its bucket is still
    missing after the three bucketed passes and the global-mean pass, in a
    table where another record has a credit score. *)
Lemma impute_CSCORE_counterexample :
  exists t : Table,
    impute [Sample.loan_a; Sample.loan_b] = Ok t /\
    map CSCORE_B t = [None; Some (700 # 1)] /\
    map CSCORE_B [Sample.loan_a; Sample.loan_b] = [None; Some (700 # 1)].
Proof.
  eexists. split; [vm_compute; reflexivity|].
  split; vm_compute; reflexivity.
Qed.

(** ** The rate spread *)

Lemma matches_In (Rates : series) (key : date) (e : date * Q) :
  In e (matches Rates key) <-> In e Rates /\ fst e = key.
Proof.
  unfold matches. rewrite filter_In, date_eqb_eq. reflexivity.
Qed.

Lemma matches_nil_iff (Rates : series) (key : date) :
  matches Rates key = [] <-> forall b, ~ In (key, b) Rates.
Proof.
  split.
  - intros E b Hin.
    assert (H : In (key, b) (matches Rates key))
      by (apply matches_In; auto).
    rewrite E in H. exact H.
  - intros H. destruct (matches Rates key) as [|[k b] ms] eqn:E; [reflexivity|].
    assert (Hin : In (k, b) (matches Rates key)) by (rewrite E; left; reflexivity).
    apply matches_In in Hin. destruct Hin as [Hin Hk]. simpl in Hk. subst k.
    destruct (H b Hin).
Qed.

(** The rows the left merge makes of one loan. *)
Lemma merge_left_rows (Log_Orig : Table) (Rates : series) (row : LoanRecord * option Q) :
  In row (merge_left Log_Orig Rates) <->
  In (fst row) Log_Orig /\
  ((matches Rates (ORIG_DTE (fst row)) = [] /\ snd row = None) \/
   (exists b, In (ORIG_DTE (fst row), b) Rates /\ snd row = Some b)).
Proof.
  unfold merge_left. rewrite in_flat_map. split.
  - intros (l & Hl & Hrow).
    destruct (matches Rates (ORIG_DTE l)) as [|e ms] eqn:E.
    + destruct Hrow as [<-|[]]. simpl. auto.
    + apply in_map_iff in Hrow. destruct Hrow as ([k b] & <- & He). simpl.
      split; [exact Hl|]. right. exists b. split; [|reflexivity].
      rewrite <- E in He. apply matches_In in He. destruct He as [He Hk].
      simpl in Hk. subst k. exact He.
  - destruct row as [l o]. simpl. intros (Hl & [[E ->]|(b & Hb & ->)]).
    + exists l. split; [exact Hl|]. rewrite E. left. reflexivity.
    + exists l. split; [exact Hl|].
      assert (Hm : In (ORIG_DTE l, b) (matches Rates (ORIG_DTE l)))
        by (apply matches_In; auto).
      destruct (matches Rates (ORIG_DTE l)) as [|e ms] eqn:E; [destruct Hm|].
      exact (in_map (fun e => (l, Some (snd e))) (e :: ms) (ORIG_DTE l, b) Hm).
Qed.

Lemma unique_label_value (s : series) (k : date) (b b' : Q) :
  NoDup (map fst s) -> In (k, b) s -> In (k, b') s -> b = b'.
Proof.
  induction s as [|[k0 v] s IH]; simpl; [tauto|].
  intros Hnd. inversion Hnd as [|x xs Hk Hs]; subst.
  intros [H|H] [H'|H'].
  - congruence.
  - injection H as -> ->. destruct Hk. apply in_map_iff. exists (k, b'). auto.
  - injection H' as -> ->. destruct Hk. apply in_map_iff. exists (k, b). auto.
  - exact (IH Hs H H').
Qed.

(** C6, as the notebook has it. The left merge keeps every loan, and the
    spread of a loan is its origination rate minus the benchmark rate the
    merge finds at its origination date, which is the first day of the
    origination month: a benchmark row dated another day of that month is
    not found. A missing operand gives a missing spread: the spread is
    missing exactly when the benchmark series has no row at that date or
    the loan has no origination rate. Over a benchmark series with one row
    per date the loan has one spread. *)
Theorem SATO_spread (Log_Orig : Table) (Rates : series) (l : LoanRecord) :
  In l Log_Orig ->
  (exists row, In row (merge_left Log_Orig Rates) /\ fst row = l) /\
  (forall row,
      In row (merge_left Log_Orig Rates) -> fst row = l ->
      SATO row = osub (ORIG_RT l) (ORIG_BENCHMK row) /\
      (forall b, ORIG_BENCHMK row = Some b -> In (ORIG_DTE l, b) Rates) /\
      (ORIG_BENCHMK row = None <-> forall b, ~ In (ORIG_DTE l, b) Rates) /\
      (SATO row = None <->
       ORIG_RT l = None \/ forall b, ~ In (ORIG_DTE l, b) Rates)) /\
  (NoDup (map fst Rates) ->
   forall row row',
     In row (merge_left Log_Orig Rates) -> In row' (merge_left Log_Orig Rates) ->
     fst row = l -> fst row' = l -> row = row').
Proof.
  intros Hl. split; [|split].
  - destruct (matches Rates (ORIG_DTE l)) as [|[k b] ms] eqn:E.
    + exists (l, None). split; [|reflexivity].
      apply merge_left_rows. simpl. auto.
    + exists (l, Some b). split; [|reflexivity].
      apply merge_left_rows. simpl. split; [exact Hl|]. right. exists b.
      split; [|reflexivity].
      assert (Hin : In (k, b) (matches Rates (ORIG_DTE l)))
        by (rewrite E; left; reflexivity).
      apply matches_In in Hin. destruct Hin as [Hin Hk]. simpl in Hk. subst k.
      exact Hin.
  - intros [l' o] Hrow Hfst. simpl in Hfst. subst l'.
    apply merge_left_rows in Hrow. simpl in Hrow.
    destruct Hrow as [_ Hrow]. unfold SATO, ORIG_BENCHMK. simpl.
    rewrite matches_nil_iff in Hrow.
    split; [reflexivity|].
    destruct Hrow as [[Hno ->]|(b & Hb & ->)].
    + split; [discriminate|]. split; [tauto|].
      destruct (ORIG_RT l); simpl; tauto.
    + split; [intros b' H; injection H as <-; exact Hb|].
      split.
      * split; [discriminate|]. intros H. destruct (H b Hb).
      * destruct (ORIG_RT l) as [q|]; simpl.
        -- split; [discriminate|]. intros [H|H]; [discriminate|destruct (H b Hb)].
        -- tauto.
  - intros Hnd [l1 o1] [l2 o2] H1 H2 E1 E2. simpl in E1, E2. subst l1 l2.
    apply merge_left_rows in H1, H2. simpl in H1, H2.
    destruct H1 as [_ H1], H2 as [_ H2]. rewrite matches_nil_iff in H1, H2.
    destruct H1 as [[N1 ->]|(b1 & B1 & ->)], H2 as [[N2 ->]|(b2 & B2 & ->)].
    + reflexivity.
    + destruct (N1 b2 B2).
    + destruct (N2 b1 B1).
    + rewrite (unique_label_value Rates (ORIG_DTE l) b1 b2 Hnd B1 B2). reflexivity.
Qed.

Lemma SATO_spread_witness :
  (exists row,
      In row (merge_left [Sample.loan_8090; Sample.loan_mar2005] Sample.rates) /\
      fst row = Sample.loan_mar2005) /\
  SATO (Sample.loan_mar2005, None) = None /\
  (SATO (Sample.loan_8090, Some (587 # 100)) = None <->
   ORIG_RT Sample.loan_8090 = None \/
   forall b, ~ In (ORIG_DTE Sample.loan_8090, b) Sample.rates).
Proof.
  destruct (SATO_spread [Sample.loan_8090; Sample.loan_mar2005] Sample.rates
              Sample.loan_mar2005 (or_intror (or_introl eq_refl)))
    as (Hex & Hrow & _).
  destruct (SATO_spread [Sample.loan_8090; Sample.loan_mar2005] Sample.rates
              Sample.loan_8090 (or_introl eq_refl))
    as (_ & Hrow' & _).
  split; [exact Hex|]. split.
  - apply (proj2 (proj2 (proj2 (Hrow (Sample.loan_mar2005, None)
                                     (or_intror (or_introl eq_refl)) eq_refl)))).
    right. intros b Hb. simpl in Hb.
    repeat (destruct Hb as [Hb|Hb]; [discriminate Hb|]). exact Hb.
  - apply (proj2 (proj2 (proj2 (Hrow' (Sample.loan_8090, Some (587 # 100))
                                      (or_introl eq_refl) eq_refl)))).
Defined.

(** The notebook's end-to-end figures: a rate of 6.25 against a benchmark
    of 5.87 is a spread of 0.38, and Florida is flagged. *)
Example SATO_loan_8090 :
  exists s : Q,
    map SATO (merge_left [Sample.loan_8090] Sample.rates) = [Some s] /\
    (s == 38 # 100)%Q /\
    CA_FL Sample.loan_8090 = 1.
Proof.
  eexists. split; [vm_compute; reflexivity|].
  split; vm_compute; reflexivity.
Qed.

(** C6, as stated, fails, in two ways. The spread of a loan without an
    origination rate is missing although the benchmark series has a row for
    its month; and the spread of a loan with a rate is missing although the
    benchmark series has a row for its month, when that row is dated the
    15th: the merge looks for the first day. *)
Lemma SATO_exactly_when_counterexample :
  (In (Sample.loan_norate, Some (587 # 100))
      (merge_left [Sample.loan_norate] Sample.rates) /\
   ~ (SATO (Sample.loan_norate, Some (587 # 100)) = None <->
      ~ has_month Sample.rates (ORIG_DTE Sample.loan_norate))) /\
  (merge_left [Sample.loan_8090] Sample2.rates_mid_month
   = [(Sample.loan_8090, None)] /\
   ~ (SATO (Sample.loan_8090, None) = None <->
      ~ has_month Sample2.rates_mid_month (ORIG_DTE Sample.loan_8090))).
Proof.
  split; split.
  - vm_compute. left. reflexivity.
  - intros [H _]. apply (H eq_refl).
    exists (mkDate 2005 1 1), (587 # 100). simpl. auto.
  - reflexivity.
  - intros [H _]. apply (H eq_refl).
    exists (mkDate 2005 1 15), (587 # 100). simpl. auto.
Qed.

(** ** The remap of Puerto Rico and the Virgin Islands *)

Lemma remap_one (l : LoanRecord) :
  STATE l = "PR"%string \/ STATE l = "VI"%string ->
  remap_VI (remap_PR l) = set_STATE l "HI" /\
  remap_VI (remap_PR (set_STATE l "HI")) = set_STATE l "HI".
Proof.
  unfold remap_VI, remap_PR. intros [H|H]; repeat (rewrite H; simpl); auto.
Qed.

(** C8. Once remapped, a table with a loan of Puerto Rico or of the Virgin
    Islands is the table with that loan in Hawaii: each call of [minVal]
    and each of the six window columns is the same for the two. *)
Theorem remap_PR_VI_as_HI (l : LoanRecord) :
  STATE l = "PR"%string \/ STATE l = "VI"%string ->
  STATE (remap_VI (remap_PR l)) = "HI"%string /\
  (forall (HPI : frame) (Rates : series) (s : SeriesName) (offset duration : Z),
      minVal HPI Rates s (ORIG_DTE (remap_VI (remap_PR l))) offset duration
             (STATE (remap_VI (remap_PR l)))
      = minVal HPI Rates s (ORIG_DTE (remap_VI (remap_PR (set_STATE l "HI"))))
               offset duration (STATE (remap_VI (remap_PR (set_STATE l "HI"))))) /\
  (forall (before after : Table),
      remap (before ++ l :: after) = remap (before ++ set_STATE l "HI" :: after) /\
      forall (HPI : frame) (Rates : series),
        window_features HPI Rates (remap (before ++ l :: after))
        = window_features HPI Rates (remap (before ++ set_STATE l "HI" :: after))).
Proof.
  intros H. destruct (remap_one l H) as [E1 E2].
  split; [rewrite E1; reflexivity|].
  split; [intros; rewrite E1, E2; reflexivity|].
  intros before after.
  assert (E : remap (before ++ l :: after)
              = remap (before ++ set_STATE l "HI" :: after)).
  { unfold remap. rewrite !map_app. simpl. rewrite E1, E2. reflexivity. }
  split; [exact E|]. intros. rewrite E. reflexivity.
Qed.

Lemma remap_PR_VI_as_HI_witness :
  window_features Sample.hpi Sample.rates (remap [Sample.loan_c])
  = window_features Sample.hpi Sample.rates (remap [set_STATE Sample.loan_c "HI"]).
Proof.
  apply (proj2 (proj2 (remap_PR_VI_as_HI Sample.loan_c (or_introl eq_refl)))
               [] []).
Defined.

(** ** Lookups in a reference series *)

Lemma ix_at_In (s : series) (d : date) (v : Q) : ix_at s d = Ok v -> In (d, v) s.
Proof.
  induction s as [|[k w] s IH]; simpl; [discriminate|].
  destruct (date_eqb k d) eqn:E.
  - apply date_eqb_eq in E. subst k. intros H; injection H as ->. auto.
  - auto.
Qed.

Lemma ix_at_absent (s : series) (d : date) :
  ~ has_label s d -> ix_at s d = Raise KeyError.
Proof.
  unfold has_label. induction s as [|[k w] s IH]; simpl; [reflexivity|].
  intros H. destruct (date_eqb k d) eqn:E.
  - apply date_eqb_eq in E. subst k. destruct H. exists w. auto.
  - apply IH. intros [v Hv]. apply H. exists v. auto.
Qed.

Lemma ix_at_exn (s : series) (d : date) (e : exn) :
  ix_at s d = Raise e -> e = KeyError.
Proof.
  induction s as [|[k w] s IH]; simpl.
  - intros H; injection H as <-. reflexivity.
  - destruct (date_eqb k d); [discriminate|exact IH].
Qed.

Lemma ix_slice_In (s : series) (a b : date) (k : date) (v : Q) :
  In (k, v) s -> date_leb a k = true -> date_leb k b = true ->
  In v (ix_slice s a b).
Proof.
  intros Hin Ha Hb. unfold ix_slice.
  apply in_map_iff. exists (k, v). split; [reflexivity|].
  apply filter_In. split; [exact Hin|]. simpl. rewrite Ha, Hb. reflexivity.
Qed.

(** ** The built-in [min] *)

Lemma Qle_bool_false (x y : Q) : Qle_bool x y = false -> (y <= x)%Q.
Proof.
  intros H. apply Qlt_le_weak. apply Qnot_le_lt. intros Hle.
  apply Qle_bool_iff in Hle. congruence.
Qed.

Lemma min_from_le (xs : list Q) :
  forall m : Q,
    (min_from m xs <= m)%Q /\ forall x, In x xs -> (min_from m xs <= x)%Q.
Proof.
  induction xs as [|a xs IH]; intros m; simpl.
  - split; [apply Qle_refl|tauto].
  - destruct (Qle_bool m a) eqn:E.
    + apply Qle_bool_iff in E. destruct (IH m) as [H1 H2].
      split; [exact H1|]. intros x [<-|Hx]; [|auto].
      eapply Qle_trans; eauto.
    + apply Qle_bool_false in E. destruct (IH a) as [H1 H2].
      split; [eapply Qle_trans; eauto|].
      intros x [<-|Hx]; auto.
Qed.

Lemma min_from_In (xs : list Q) :
  forall m : Q, min_from m xs = m \/ In (min_from m xs) xs.
Proof.
  induction xs as [|a xs IH]; intros m; simpl; [auto|].
  destruct (Qle_bool m a).
  - destruct (IH m); auto.
  - destruct (IH a); auto.
Qed.

Lemma py_min_spec (xs : list Q) (x : Q) :
  In x xs ->
  exists lowest,
    py_min xs = Ok lowest /\ In lowest xs /\
    forall y, In y xs -> (lowest <= y)%Q.
Proof.
  destruct xs as [|a xs]; [intros []|]. intros _.
  exists (min_from a xs). split; [reflexivity|].
  destruct (min_from_le xs a) as [H1 H2].
  split.
  - destruct (min_from_In xs a) as [->|H]; [left; reflexivity|right; exact H].
  - intros y [<-|Hy]; auto.
Qed.

(** ** The window features *)

Lemma window_order (y m d duration : Z) :
  0 <= duration -> date_leb (mkDate y m d) (mkDate (y + duration) m d) = true.
Proof.
  intros H. destruct (Z.eq_dec duration 0) as [->|Hne].
  - rewrite Z.add_0_r. apply date_leb_refl.
  - apply earlier_year_leb. simpl. lia.
Qed.

(** C7. When the two ends of the window are dates and the benchmark series
    has a row at the start date, the rate feature is the rate at the start
    date minus the smallest rate of the window, both ends included; it is
    never negative, and it is zero exactly when no rate of the window is
    below the one at the start date. *)
Theorem minVal_rate_drop (HPI : frame) (Rates : series) (origdate : date)
        (offset duration : Z) (state : string) (startdate enddate : date) (start : Q) :
  dt_date (year origdate + offset) (month origdate) (day origdate) = Ok startdate ->
  dt_date (year origdate + offset + duration) (month origdate) (day origdate)
  = Ok enddate ->
  0 <= duration ->
  ix_at Rates startdate = Ok start ->
  exists lowest : Q,
    py_min (ix_slice Rates startdate enddate) = Ok lowest /\
    In lowest (ix_slice Rates startdate enddate) /\
    (forall x, In x (ix_slice Rates startdate enddate) -> (lowest <= x)%Q) /\
    minVal HPI Rates sRate origdate offset duration state = Ok (start - lowest)%Q /\
    (0 <= start - lowest)%Q /\
    ((start - lowest == 0)%Q <->
     forall x, In x (ix_slice Rates startdate enddate) -> (start <= x)%Q).
Proof.
  intros Hs He Hdur Hstart.
  assert (Hwin : In start (ix_slice Rates startdate enddate)).
  { apply ix_slice_In with (k := startdate).
    - apply ix_at_In. exact Hstart.
    - apply date_leb_refl.
    - apply dt_date_ok in Hs, He. destruct Hs as [-> _], He as [-> _].
      apply window_order. exact Hdur. }
  destruct (py_min_spec _ _ Hwin) as (lowest & Hmin & Hin & Hlow).
  exists lowest. split; [exact Hmin|]. split; [exact Hin|]. split; [exact Hlow|].
  split.
  - unfold minVal. rewrite Hs, He. simpl. rewrite Hstart. simpl.
    rewrite Hmin. reflexivity.
  - pose proof (Hlow _ Hwin) as Hle. split; [lra|]. split.
    + intros Hz x Hx. specialize (Hlow x Hx). lra.
    + intros Hall. specialize (Hall lowest Hin). lra.
Qed.

Lemma minVal_rate_drop_witness :
  exists lowest : Q,
    py_min (ix_slice Sample.rates (mkDate 2005 1 1) (mkDate 2007 1 1)) = Ok lowest /\
    minVal Sample.hpi Sample.rates sRate Sample.jan2005 0 2 "FL"
    = Ok ((587 # 100) - lowest)%Q /\
    (0 <= (587 # 100) - lowest)%Q.
Proof.
  destruct (minVal_rate_drop Sample.hpi Sample.rates Sample.jan2005 0 2 "FL"
                             (mkDate 2005 1 1) (mkDate 2007 1 1) (587 # 100))
    as (lowest & H1 & _ & _ & H2 & H3 & _).
  - reflexivity.
  - reflexivity.
  - lia.
  - reflexivity.
  - exists lowest. auto.
Defined.

Example minVal_rate_jan2005 :
  minVal Sample.hpi Sample.rates sRate Sample.jan2005 0 2 "FL"
  = Ok ((587 # 100) - (563 # 100))%Q /\
  minVal Sample.hpi Sample.rates sHPI Sample.jan2005 0 2 "FL"
  = Ok ((100 # 1) / (100 # 1))%Q.
Proof. split; reflexivity. Qed.

Lemma column_exn (df : frame) (name : string) (e : exn) :
  column df name = Raise e -> e = KeyError.
Proof.
  induction df as [|[n s] df IH]; simpl.
  - intros H; injection H as <-. reflexivity.
  - destruct (String.eqb n name); [discriminate|exact IH].
Qed.

Lemma py_min_exn (xs : list Q) (e : exn) : py_min xs = Raise e -> e = ValueError.
Proof.
  destruct xs; simpl; [|discriminate]. intros H; injection H as <-. reflexivity.
Qed.

(** C1, as the notebook has it. When the start date of the window is no
    label of the series [minVal] reads, [minVal] returns no value: it
    raises (the [KeyError] of the lookup, for the rate feature as soon as
    the end date is a date), and so does the [map] that fills the column
    for any table with such a loan. *)
Theorem minVal_absent_start_raises (HPI : frame) (Rates : series) (s : SeriesName)
        (origdate : date) (offset duration : Z) (state : string) (startdate : date) :
  dt_date (year origdate + offset) (month origdate) (day origdate) = Ok startdate ->
  (forall ser, window_series HPI Rates s state = Ok ser -> ~ has_label ser startdate) ->
  (exists e, minVal HPI Rates s origdate offset duration state = Raise e /\
             (e = KeyError \/ e = ValueError)) /\
  (forall enddate,
      s = sRate ->
      dt_date (year origdate + offset + duration) (month origdate) (day origdate)
      = Ok enddate ->
      minVal HPI Rates s origdate offset duration state = Raise KeyError) /\
  (forall (Log_Orig : Table) (l : LoanRecord),
      In l Log_Orig -> ORIG_DTE l = origdate -> STATE l = state ->
      exists e, populate HPI Rates s offset duration Log_Orig = Raise e).
Proof.
  intros Hs Habs.
  assert (Hrate : forall enddate,
             s = sRate ->
             dt_date (year origdate + offset + duration) (month origdate) (day origdate)
             = Ok enddate ->
             minVal HPI Rates s origdate offset duration state = Raise KeyError).
  { intros enddate -> He. unfold minVal. rewrite Hs, He. simpl.
    rewrite ix_at_absent; [reflexivity|]. apply (Habs Rates). reflexivity. }
  assert (Hraise : exists e,
             minVal HPI Rates s origdate offset duration state = Raise e /\
             (e = KeyError \/ e = ValueError)).
  { destruct (dt_date (year origdate + offset + duration) (month origdate)
                      (day origdate)) as [enddate|e] eqn:He.
    - destruct s.
      + unfold minVal. rewrite Hs, He. simpl.
        destruct (column HPI state) as [ser|e] eqn:Hcol; simpl.
        * destruct (py_min (ix_slice ser startdate enddate)) as [lowest|e] eqn:Hmin;
            simpl.
          -- rewrite ix_at_absent; [simpl; eauto|].
             apply (Habs ser). exact Hcol.
          -- apply py_min_exn in Hmin. subst e. eauto.
        * apply column_exn in Hcol. subst e. eauto.
      + rewrite (Hrate enddate eq_refl eq_refl). eauto.
    - unfold minVal. rewrite Hs, He. simpl. exists e. split; [reflexivity|].
      unfold dt_date in He. destruct (valid _ _ _); [discriminate|].
      injection He as <-. auto. }
  split; [exact Hraise|]. split; [exact Hrate|].
  intros Log_Orig l Hin Hd Hst. destruct Hraise as (e & He & _).
  unfold populate. apply mapM_In_raise with (x := l) (e := e); [exact Hin|].
  rewrite Hd, Hst. exact He.
Qed.

Lemma minVal_absent_start_raises_witness :
  minVal Sample.hpi Sample.rates sRate (ORIG_DTE Sample.loan_mar2005) 0 2 "FL"
  = Raise KeyError.
Proof.
  assert (Habs : forall ser,
             window_series Sample.hpi Sample.rates sRate "FL" = Ok ser ->
             ~ has_label ser (mkDate 2005 3 1)).
  { intros ser E. injection E as <-. intros [v Hv]. simpl in Hv.
    repeat (destruct Hv as [Hv|Hv]; [discriminate Hv|]). exact Hv. }
  exact (proj1 (proj2 (minVal_absent_start_raises
                         Sample.hpi Sample.rates sRate
                         (ORIG_DTE Sample.loan_mar2005) 0 2 "FL"
                         (mkDate 2005 3 1) eq_refl Habs))
               (mkDate 2007 3 1) eq_refl eq_refl).
Defined.

(** C1, as stated, fails: for a loan originated in March 2005, a month the
    sample series have no row for, [minVal] raises a [KeyError] instead of
    returning a value, and the [map] over a table with that loan raises
    too, although it succeeds on the other loan alone. *)
Lemma minVal_absent_start_counterexample :
  ~ has_label Sample.rates (ORIG_DTE Sample.loan_mar2005) /\
  minVal Sample.hpi Sample.rates sRate (ORIG_DTE Sample.loan_mar2005) 0 2
         (STATE Sample.loan_mar2005) = Raise KeyError /\
  minVal Sample.hpi Sample.rates sHPI (ORIG_DTE Sample.loan_mar2005) 0 2
         (STATE Sample.loan_mar2005) = Raise KeyError /\
  populate Sample.hpi Sample.rates sRate 0 2 [Sample.loan_8090; Sample.loan_mar2005]
  = Raise KeyError /\
  populate Sample.hpi Sample.rates sRate 0 2 [Sample.loan_8090]
  = Ok [((587 # 100) - (563 # 100))%Q].
Proof.
  split.
  - intros [v Hv]. simpl in Hv.
    repeat (destruct Hv as [Hv|Hv]; [discriminate Hv|]). exact Hv.
  - repeat split; reflexivity.
Qed.

(** * Further properties of the notebook's functions *)

(** ** The order of dates *)

Lemma date_leb_iff (a b : date) :
  date_leb a b = true <->
  year a < year b \/
  (year a = year b /\ (month a < month b \/ (month a = month b /\ day a <= day b))).
Proof.
  unfold date_leb, date_ltb, date_eqb.
  rewrite !orb_true_iff, !andb_true_iff, !orb_true_iff, !andb_true_iff,
    !Z.ltb_lt, !Z.eqb_eq. lia.
Qed.

Lemma date_ltb_iff (a b : date) :
  date_ltb a b = true <->
  year a < year b \/
  (year a = year b /\ (month a < month b \/ (month a = month b /\ day a < day b))).
Proof.
  unfold date_ltb.
  rewrite !orb_true_iff, !andb_true_iff, !orb_true_iff, !andb_true_iff,
    !Z.ltb_lt, !Z.eqb_eq. lia.
Qed.

Lemma date_leb_false_iff (a b : date) : date_leb a b = false <-> date_ltb b a = true.
Proof.
  rewrite <- not_true_iff_false, date_leb_iff, date_ltb_iff. lia.
Qed.

Lemma date_leb_trans (a b c : date) :
  date_leb a b = true -> date_leb b c = true -> date_leb a c = true.
Proof. rewrite !date_leb_iff. lia. Qed.

Ltac date_order :=
  repeat match goal with
         | H : date_leb _ _ = false |- _ => apply date_leb_false_iff in H
         end;
  rewrite ?date_leb_iff, ?date_ltb_iff in *; lia.

(** ** The event labeler, beyond the two-year bound *)

Lemma in_369_iff (Code : option Z) :
  in_369 Code = true <-> Code = Some 3 \/ Code = Some 6 \/ Code = Some 9.
Proof.
  destruct Code as [c|]; simpl.
  - rewrite !orb_true_iff, !Z.eqb_eq. split.
    + intros [[->| ->]| ->]; auto.
    + intros [H|[H|H]]; injection H as ->; auto.
  - split; [discriminate|]. intros [H|[H|H]]; discriminate.
Qed.

Lemma ResponseValue_chain (Code : option Z) (OrigDate DefDate c1 c2 c3 : date) :
  in_369 Code = true ->
  valid_date DefDate = true ->
  dt_date (year OrigDate + 2) (month OrigDate) (day OrigDate) = Ok c1 ->
  dt_date (year OrigDate + 4) (month OrigDate) (day OrigDate) = Ok c2 ->
  dt_date (year OrigDate + 6) (month OrigDate) (day OrigDate) = Ok c3 ->
  ResponseValue Code OrigDate (Some DefDate)
  = Ok (if date_leb DefDate c1 then 1
        else if date_leb DefDate c2 then 2
             else if date_leb DefDate c3 then 3 else 0).
Proof.
  intros HCode Hv H1 H2 H3.
  unfold ResponseValue. rewrite HCode, (redate_valid _ Hv), H1, H2, H3. simpl.
  destruct (date_leb DefDate c1), (date_leb DefDate c2), (date_leb DefDate c3);
    reflexivity.
Qed.

(** X1. With a qualifying code, an exit date and the three cutoffs being
    dates, the label is 1 exactly when the exit is no later than the cutoff
    two years after the origination (an exit dated before the origination
    included), 2 exactly when it is later than that cutoff and no later
    than the one at four years, 3 exactly when it is later than the one at
    four years and no later than the one at six years, and 0 exactly when
    it is later than the cutoff at six years. *)
Theorem ResponseValue_intervals (Code : option Z) (OrigDate DefDate c1 c2 c3 : date) :
  Code = Some 3 \/ Code = Some 6 \/ Code = Some 9 ->
  valid_date DefDate = true ->
  dt_date (year OrigDate + 2) (month OrigDate) (day OrigDate) = Ok c1 ->
  dt_date (year OrigDate + 4) (month OrigDate) (day OrigDate) = Ok c2 ->
  dt_date (year OrigDate + 6) (month OrigDate) (day OrigDate) = Ok c3 ->
  exists label : Z,
    ResponseValue Code OrigDate (Some DefDate) = Ok label /\
    (label = 1 <-> date_leb DefDate c1 = true) /\
    (label = 2 <-> date_ltb c1 DefDate = true /\ date_leb DefDate c2 = true) /\
    (label = 3 <-> date_ltb c2 DefDate = true /\ date_leb DefDate c3 = true) /\
    (label = 0 <-> date_ltb c3 DefDate = true).
Proof.
  intros HCode Hv H1 H2 H3. apply in_369_iff in HCode.
  rewrite (ResponseValue_chain Code OrigDate DefDate c1 c2 c3 HCode Hv H1 H2 H3).
  apply dt_date_ok in H1 as E1. apply dt_date_ok in H2 as E2.
  apply dt_date_ok in H3 as E3.
  destruct E1 as [E1 _], E2 as [E2 _], E3 as [E3 _].
  assert (L12 : date_ltb c1 c2 = true) by (apply date_ltb_iff; subst; simpl; lia).
  assert (L23 : date_ltb c2 c3 = true) by (apply date_ltb_iff; subst; simpl; lia).
  clear E1 E2 E3.
  destruct (date_leb DefDate c1) eqn:D1;
    [|destruct (date_leb DefDate c2) eqn:D2;
      [|destruct (date_leb DefDate c3) eqn:D3]];
    eexists; (split; [reflexivity|]); date_order.
Qed.

Lemma ResponseValue_intervals_witness :
  exists label : Z,
    ResponseValue (Some 6) Sample.jan2005 (Some (mkDate 2012 7 15)) = Ok label /\
    (label = 0 <-> date_ltb (mkDate 2011 1 1) (mkDate 2012 7 15) = true).
Proof.
  destruct (ResponseValue_intervals (Some 6) Sample.jan2005 (mkDate 2012 7 15)
              (mkDate 2007 1 1) (mkDate 2009 1 1) (mkDate 2011 1 1))
    as (label & H & _ & _ & _ & H0).
  - right. left. reflexivity.
  - reflexivity.
  - reflexivity.
  - reflexivity.
  - reflexivity.
  - exists label. split; [exact H|exact H0].
Defined.

(** An exit dated before the origination is labelled 1. *)
Example ResponseValue_exit_before_origination :
  ResponseValue (Some 3) Sample.jan2005 (Some (mkDate 2004 6 1)) = Ok 1.
Proof. reflexivity. Qed.

Lemma not_leap_two_years_on (y : Z) : is_leap y = true -> is_leap (y + 2) = false.
Proof.
  intros H. apply is_leap_mod4 in H.
  destruct (is_leap (y + 2)) eqn:E; [|reflexivity].
  apply is_leap_mod4 in E. Z.div_mod_to_equations. lia.
Qed.

Lemma leap_day_invalid (y : Z) : is_leap y = false -> dt_date y 2 29 = Raise ValueError.
Proof.
  intros H. unfold dt_date, valid, days_in_month. simpl. rewrite H. simpl.
  rewrite !andb_false_r. reflexivity.
Qed.

(** X2. For a loan originated on a 29th of February, a qualifying code and
    an exit date, [ResponseValue] returns no label: the cutoff two years
    later is no date and [dt.date] raises a [ValueError], whatever the
    exit date. *)
Theorem ResponseValue_leap_day_raises (Code : option Z) (y : Z) (DefDate : date) :
  Code = Some 3 \/ Code = Some 6 \/ Code = Some 9 ->
  is_leap y = true ->
  valid_date DefDate = true ->
  ResponseValue Code (mkDate y 2 29) (Some DefDate) = Raise ValueError.
Proof.
  intros HCode Hy Hv. apply in_369_iff in HCode.
  unfold ResponseValue. rewrite HCode, (redate_valid _ Hv). simpl.
  rewrite (leap_day_invalid (y + 2) (not_leap_two_years_on y Hy)). reflexivity.
Qed.

Lemma ResponseValue_leap_day_raises_witness :
  ResponseValue (Some 9) (mkDate 2004 2 29) (Some (mkDate 2005 6 1))
  = Raise ValueError.
Proof.
  apply (ResponseValue_leap_day_raises (Some 9) 2004 (mkDate 2005 6 1)).
  - right. right. reflexivity.
  - reflexivity.
  - reflexivity.
Defined.

Lemma mapM_Forall {A B : Type} (f : A -> result B) (P : B -> Prop) (xs : list A) :
  (forall x, In x xs -> exists y, f x = Ok y /\ P y) ->
  exists ys, mapM f xs = Ok ys /\ List.length ys = List.length xs /\ Forall P ys.
Proof.
  induction xs as [|a xs IH]; simpl; intros H.
  - exists []. auto.
  - destruct (H a (or_introl eq_refl)) as (y & Hy & Py).
    destruct IH as (ys & Hys & Hlen & HP); [auto|].
    exists (y :: ys). rewrite Hy, Hys. simpl. auto.
Qed.

Lemma extractDefault_row (Perf : list EventRecord) (ID : Z) :
  extractDefault Perf ID = (None, None) \/
  exists r d, In r Perf /\ ev_LOAN_ID r = ID /\ ZB_DTE r = Some d /\
              extractDefault Perf ID = (Zero_Bal_Code r, Some d).
Proof.
  unfold extractDefault.
  destruct (filter _ Perf) as [|r a] eqn:E; [left; reflexivity|right].
  assert (Hin : In r (filter (fun r => (ev_LOAN_ID r =? ID) && notnull (ZB_DTE r)) Perf))
    by (rewrite E; left; reflexivity).
  apply filter_In in Hin. destruct Hin as [Hin Hp].
  apply andb_true_iff in Hp. destruct Hp as [Hid Hnn]. apply Z.eqb_eq in Hid.
  destruct (ZB_DTE r) as [d|] eqn:Ed; [|discriminate].
  exists r, d. rewrite Ed. auto.
Qed.

(** X3. Over a table with at least one loan, when every origination date
    is a date on a day that exists in every month (the notebook's are first
    days of a month) no later than year 9993, and every exit date of the
    event log is a date, the response column is computed for the whole
    table: one label per loan, each of 0, 1, 2 or 3. *)
Theorem RESPONSE_total (Perf : list EventRecord) (Log_Orig : Table) :
  Log_Orig <> [] ->
  (forall l, In l Log_Orig ->
             valid_date (ORIG_DTE l) = true /\ day (ORIG_DTE l) <= 28 /\
             year (ORIG_DTE l) + 6 <= 9999) ->
  (forall r d, In r Perf -> ZB_DTE r = Some d -> valid_date d = true) ->
  exists labels : list Z,
    RESPONSE Perf Log_Orig = Ok labels /\
    List.length labels = List.length Log_Orig /\
    Forall (fun x => 0 <= x <= 3) labels.
Proof.
  intros Hne HO HP. rewrite RESPONSE_rows.
  destruct Log_Orig as [|l0 t0]; [congruence|].
  apply mapM_Forall. intros l Hl.
  destruct (HO l Hl) as (Hv & Hd & Hy). unfold response_of.
  destruct (extractDefault_row Perf (LOAN_ID l)) as [E|(r & d & Hr & _ & Hdr & E)];
    rewrite E; simpl.
  - exists 0. split; [reflexivity|lia].
  - destruct (in_369 (Zero_Bal_Code r)) eqn:Hq.
    + unfold valid_date in Hv. apply valid_spec in Hv.
      assert (Hc : forall k, 0 <= k <= 6 ->
                 dt_date (year (ORIG_DTE l) + k) (month (ORIG_DTE l)) (day (ORIG_DTE l))
                 = Ok (mkDate (year (ORIG_DTE l) + k) (month (ORIG_DTE l))
                              (day (ORIG_DTE l)))).
      { intros k Hk. apply dt_date_valid, valid_spec.
        pose proof (days_in_month_bounds (year (ORIG_DTE l) + k) (month (ORIG_DTE l))).
        lia. }
      rewrite (ResponseValue_chain (Zero_Bal_Code r) (ORIG_DTE l) d _ _ _ Hq
                 (HP r d Hr Hdr) (Hc 2 ltac:(lia)) (Hc 4 ltac:(lia)) (Hc 6 ltac:(lia))).
      eexists. split; [reflexivity|].
      repeat match goal with
             | |- context [if ?b then _ else _] => destruct b
             end; lia.
    + exists 0. rewrite ResponseValue_not_qualifying by exact Hq.
      split; [reflexivity|lia].
Qed.

Lemma RESPONSE_total_witness :
  exists labels : list Z,
    RESPONSE Sample2.perf_exits Sample.loans = Ok labels /\
    List.length labels = List.length Sample.loans /\
    Forall (fun x => 0 <= x <= 3) labels.
Proof.
  apply (RESPONSE_total Sample2.perf_exits Sample.loans).
  - discriminate.
  - intros l Hl. simpl in Hl.
    repeat (destruct Hl as [<-|Hl]; [simpl; repeat split; lia|]). destruct Hl.
  - intros r d Hr Hd. simpl in Hr.
    repeat (destruct Hr as [<-|Hr];
            [simpl in Hd; first [discriminate Hd | injection Hd as <-; reflexivity]|]).
    destruct Hr.
Defined.

(** The labels of the sample: an exit in the second year, no qualifying
    exit, an exit in the sixth year, no exit; and no column at all for the
    empty table. *)
Example RESPONSE_sample :
  RESPONSE Sample2.perf_exits Sample.loans = Ok [1; 0; 3; 0] /\
  RESPONSE Sample2.perf_exits [] = Raise ValueError.
Proof. split; reflexivity. Qed.

(** ** The exit of a loan *)

Lemma filter_filter_implied {A : Type} (p keep : A -> bool) (xs : list A) :
  (forall x, In x xs -> p x = true -> keep x = true) ->
  filter p (filter keep xs) = filter p xs.
Proof.
  induction xs as [|a xs IH]; simpl; intros H; [reflexivity|].
  destruct (keep a) eqn:Ek; simpl.
  - rewrite IH by auto. reflexivity.
  - destruct (p a) eqn:Ep.
    + rewrite (H a (or_introl eq_refl) Ep) in Ek. discriminate.
    + apply IH. auto.
Qed.

(** X4. [extractDefault] returns the code and the date of the first row of
    the event log, in table order, that bears the loan's identifier and an
    exit date: the rows before it that are undated or of other loans, and
    all the rows after it, do not count. *)
Theorem extractDefault_first_dated (before after : list EventRecord)
        (r : EventRecord) (ID : Z) (d : date) :
  ev_LOAN_ID r = ID ->
  ZB_DTE r = Some d ->
  (forall r', In r' before -> ev_LOAN_ID r' = ID -> ZB_DTE r' = None) ->
  extractDefault (before ++ r :: after) ID = (Zero_Bal_Code r, Some d).
Proof.
  intros Hid Hd Hbefore. unfold extractDefault.
  rewrite filter_app.
  assert (E : filter (fun r0 => (ev_LOAN_ID r0 =? ID) && notnull (ZB_DTE r0)) before = []).
  { clear - Hbefore. induction before as [|a l IH]; simpl; [reflexivity|].
    destruct (Z.eqb_spec (ev_LOAN_ID a) ID) as [Ha|Ha]; simpl.
    - rewrite (Hbefore a (or_introl eq_refl) Ha). simpl.
      apply IH. intros r' Hr'. apply Hbefore. right. exact Hr'.
    - apply IH. intros r' Hr'. apply Hbefore. right. exact Hr'. }
  rewrite E. simpl. rewrite (proj2 (Z.eqb_eq _ _) Hid), Hd. simpl.
  rewrite Hd. reflexivity.
Qed.

Lemma extractDefault_first_dated_witness :
  extractDefault Sample.perf 101 = (Some 1, Some (mkDate 2006 3 1)).
Proof.
  apply (extractDefault_first_dated
           [mkEvent 100 None None]
           [mkEvent 100 None None]
           (mkEvent 101 (Some 1) (Some (mkDate 2006 3 1))) 101 (mkDate 2006 3 1)).
  - reflexivity.
  - reflexivity.
  - intros r' [<-|[]] H. reflexivity.
Defined.

(** X5. The exit of a loan only depends on the dated rows of that loan:
    dropping any other row from the event log leaves the result of
    [extractDefault] unchanged. *)
Theorem extractDefault_other_rows (Perf : list EventRecord) (ID : Z)
        (keep : EventRecord -> bool) :
  (forall r, In r Perf -> ev_LOAN_ID r = ID -> ZB_DTE r <> None -> keep r = true) ->
  extractDefault (filter keep Perf) ID = extractDefault Perf ID.
Proof.
  intros H. unfold extractDefault.
  rewrite filter_filter_implied; [reflexivity|].
  intros r Hr Hp. apply andb_true_iff in Hp. destruct Hp as [Hid Hnn].
  apply Z.eqb_eq in Hid. apply H; [exact Hr|exact Hid|].
  destruct (ZB_DTE r); [discriminate|discriminate].
Qed.

Lemma extractDefault_other_rows_witness :
  extractDefault (filter (fun r => ev_LOAN_ID r =? 101) Sample.perf) 101
  = extractDefault Sample.perf 101.
Proof.
  apply (extractDefault_other_rows Sample.perf 101 (fun r => ev_LOAN_ID r =? 101)).
  intros r _ Hid _. apply Z.eqb_eq. exact Hid.
Defined.

(** ** The remap, the region flag and the merge *)

Lemma remap_row_cases (l : LoanRecord) :
  (STATE l = "PR"%string \/ STATE l = "VI"%string) /\
  remap_VI (remap_PR l) = set_STATE l "HI"
  \/
  STATE l <> "PR"%string /\ STATE l <> "VI"%string /\ remap_VI (remap_PR l) = l.
Proof.
  unfold remap_VI, remap_PR.
  destruct (String.eqb_spec (STATE l) "PR") as [E|E].
  - left. rewrite E. simpl. auto.
  - destruct (String.eqb_spec (STATE l) "VI") as [E'|E'].
    + left. rewrite E'. simpl. auto.
    + right. auto.
Qed.

(** X6. The remap yields a table of the same size in which no loan is in
    Puerto Rico or in the Virgin Islands. It changes nothing but the state,
    keeps the loans of any other state as they are, and a second remap
    changes nothing. *)
Theorem remap_only_states (Log_Orig : Table) :
  List.length (remap Log_Orig) = List.length Log_Orig /\
  (forall l, In l (remap Log_Orig) ->
             STATE l <> "PR"%string /\ STATE l <> "VI"%string) /\
  Forall2 (fun l l' =>
             l' = set_STATE l (STATE l') /\
             (STATE l <> "PR"%string -> STATE l <> "VI"%string -> l' = l))
          Log_Orig (remap Log_Orig) /\
  remap (remap Log_Orig) = remap Log_Orig.
Proof.
  unfold remap. rewrite !length_map. split; [reflexivity|].
  split; [|split].
  - intros l Hl. rewrite map_map in Hl. apply in_map_iff in Hl.
    destruct Hl as (l0 & <- & _).
    destruct (remap_row_cases l0) as [[_ ->]|(H1 & H2 & ->)]; [|auto].
    simpl. split; discriminate.
  - rewrite map_map. induction Log_Orig as [|l t IH]; simpl; constructor; [|exact IH].
    destruct (remap_row_cases l) as [[Hs ->]|(H1 & H2 & ->)].
    + simpl. split; [reflexivity|]. intros; destruct Hs; contradiction.
    + split; [destruct l; reflexivity|reflexivity].
  - rewrite !map_map. apply map_ext. intros l.
    destruct (remap_row_cases l) as [[_ ->]|(H1 & H2 & ->)].
    + reflexivity.
    + destruct (remap_row_cases l) as [[[Hs|Hs] _]|(_ & _ & E)];
        [contradiction|contradiction|exact E].
Qed.

(** X7. The region flag does not depend on the remap: the notebook computes
    it before, and computing it after would give the same column. *)
Theorem CA_FL_before_or_after_remap (Log_Orig : Table) :
  map CA_FL (remap Log_Orig) = map CA_FL Log_Orig.
Proof.
  unfold remap. rewrite !map_map. apply map_ext. intros l.
  destruct (remap_row_cases l) as [[Hs ->]|(_ & _ & ->)]; [|reflexivity].
  unfold CA_FL. simpl. destruct Hs as [-> | ->]; reflexivity.
Qed.

Lemma matches_unique (Rates : series) (key : date) :
  NoDup (map fst Rates) ->
  matches Rates key
  = match ix_at Rates key with
    | Ok v => [(key, v)]
    | Raise _ => []
    end.
Proof.
  unfold matches. induction Rates as [|[k v] s IH]; simpl; [reflexivity|].
  intros Hnd. inversion Hnd as [|k' s' Hk Hs]; subst.
  destruct (date_eqb k key) eqn:E.
  - apply date_eqb_eq in E. subst k. f_equal.
    rewrite (IH Hs). rewrite ix_at_absent; [reflexivity|].
    intros [w Hw]. apply Hk. apply in_map_iff. exists (key, w). auto.
  - apply IH. exact Hs.
Qed.

(** X8. Over a benchmark table without two rows for one date, the left merge
    keeps the loan table row for row, in order, and the benchmark it joins
    to a loan is the value the point lookup [ix_at] finds at the
    origination date, missing when that lookup finds no row. *)
Theorem merge_left_unique_labels (Log_Orig : Table) (Rates : series) :
  NoDup (map fst Rates) ->
  merge_left Log_Orig Rates
  = map (fun l => (l, match ix_at Rates (ORIG_DTE l) with
                      | Ok v => Some v
                      | Raise _ => None
                      end)) Log_Orig /\
  map fst (merge_left Log_Orig Rates) = Log_Orig.
Proof.
  intros Hnd.
  assert (E : merge_left Log_Orig Rates
              = map (fun l => (l, match ix_at Rates (ORIG_DTE l) with
                                  | Ok v => Some v
                                  | Raise _ => None
                                  end)) Log_Orig).
  { unfold merge_left. induction Log_Orig as [|l t IH]; [reflexivity|].
    cbn [flat_map]. rewrite IH, (matches_unique Rates (ORIG_DTE l) Hnd).
    destruct (ix_at Rates (ORIG_DTE l)) eqn:Ei; simpl; rewrite Ei; reflexivity. }
  split; [exact E|]. rewrite E, map_map. simpl. apply map_id.
Qed.

Lemma merge_left_unique_labels_witness :
  map fst (merge_left Sample.loans Sample.rates) = Sample.loans.
Proof.
  apply (merge_left_unique_labels Sample.loans Sample.rates).
  repeat constructor; simpl; intuition discriminate.
Defined.

(** With two rows for one date the merge doubles the loan. *)
Example merge_left_duplicate_label :
  List.length (merge_left [Sample.loan_8090]
                 ((mkDate 2005 1 1, 590 # 100) :: Sample.rates)) = 2%nat.
Proof. reflexivity. Qed.

(** ** The window features, beyond the start date *)

Lemma ix_at_label (s : series) (d : date) :
  has_label s d -> exists v, ix_at s d = Ok v.
Proof.
  intros H. destruct (ix_at s d) as [v|e] eqn:E; [eauto|].
  exfalso. revert H E. unfold has_label.
  induction s as [|[k w] s IH]; simpl.
  - intros [v []].
  - destruct (date_eqb k d) eqn:Ek; [discriminate|].
    intros [v [Hv|Hv]] E.
    + injection Hv as -> ->.
      rewrite (proj2 (date_eqb_eq d d) eq_refl) in Ek. discriminate.
    + apply IH; [exists v; exact Hv|exact E].
Qed.

Lemma ix_slice_In_iff (s : series) (a b : date) (v : Q) :
  In v (ix_slice s a b) <->
  exists k, In (k, v) s /\ date_leb a k = true /\ date_leb k b = true.
Proof.
  unfold ix_slice. rewrite in_map_iff. split.
  - intros ([k w] & Hw & Hin). simpl in Hw. subst w.
    apply filter_In in Hin. destruct Hin as [Hin Hp]. simpl in Hp.
    apply andb_true_iff in Hp. exists k. tauto.
  - intros (k & Hin & Ha & Hb). exists (k, v). split; [reflexivity|].
    apply filter_In. simpl. rewrite Ha, Hb. auto.
Qed.

(** X9. For a window that does not run backwards, [minVal] returns a value
    exactly when the two ends of the window are dates, the series it reads
    exists (for the HPI feature the state is a column of the HPI table) and
    the start date is a label of that series. *)
Theorem minVal_succeeds_iff (HPI : frame) (Rates : series) (s : SeriesName)
        (origdate : date) (offset duration : Z) (state : string) :
  0 <= duration ->
  ((exists v, minVal HPI Rates s origdate offset duration state = Ok v) <->
   valid (year origdate + offset) (month origdate) (day origdate) = true /\
   valid (year origdate + offset + duration) (month origdate) (day origdate) = true /\
   exists ser,
     window_series HPI Rates s state = Ok ser /\
     has_label ser (mkDate (year origdate + offset) (month origdate) (day origdate))).
Proof.
  intros Hdur. unfold minVal, dt_date.
  destruct (valid (year origdate + offset) (month origdate) (day origdate));
    simpl; [|split; [intros [v H]; discriminate|intros [H _]; discriminate]].
  destruct (valid (year origdate + offset + duration) (month origdate) (day origdate));
    simpl; [|split; [intros [v H]; discriminate|intros (_ & H & _); discriminate]].
  set (sd := mkDate (year origdate + offset) (month origdate) (day origdate)).
  set (ed := mkDate (year origdate + offset + duration) (month origdate) (day origdate)).
  assert (Hord : date_leb sd ed = true) by (apply window_order; exact Hdur).
  split.
  - intros [v H]. split; [reflexivity|]. split; [reflexivity|].
    destruct s; simpl in *.
    + destruct (column HPI state) as [ser|e]; simpl in H; [|discriminate].
      exists ser. split; [reflexivity|].
      destruct (py_min (ix_slice ser sd ed)); simpl in H; [|discriminate].
      destruct (ix_at ser sd) as [w|e] eqn:Ew; simpl in H; [|discriminate].
      exists w. apply ix_at_In. exact Ew.
    + exists Rates. split; [reflexivity|].
      destruct (ix_at Rates sd) as [w|e] eqn:Ew; simpl in H; [|discriminate].
      exists w. apply ix_at_In. exact Ew.
  - intros (_ & _ & ser & Hser & Hlab).
    destruct (ix_at_label ser sd Hlab) as [w Hw].
    assert (Hin : In w (ix_slice ser sd ed)).
    { apply ix_slice_In with (k := sd);
        [apply ix_at_In; exact Hw|apply date_leb_refl|exact Hord]. }
    destruct (py_min_spec _ _ Hin) as (lowest & Hmin & _).
    destruct s; simpl in Hser.
    + rewrite Hser. simpl. rewrite Hmin. simpl. rewrite Hw. simpl. eauto.
    + injection Hser as <-. rewrite Hw. simpl. rewrite Hmin. simpl. eauto.
Qed.

Lemma minVal_succeeds_iff_witness :
  (exists v, minVal Sample.hpi Sample.rates sHPI Sample.jan2005 0 2 "PR" = Ok v) <->
  valid 2005 1 1 = true /\ valid 2007 1 1 = true /\
  exists ser,
    window_series Sample.hpi Sample.rates sHPI "PR" = Ok ser /\
    has_label ser (mkDate 2005 1 1).
Proof.
  apply (minVal_succeeds_iff Sample.hpi Sample.rates sHPI Sample.jan2005 0 2 "PR").
  lia.
Defined.

(** Before the remap a loan of Puerto Rico has no HPI feature: the state is
    no column of the HPI table. *)
Example minVal_PR_before_remap :
  minVal Sample.hpi Sample.rates sHPI Sample.jan2005 0 2 "PR" = Raise KeyError /\
  minVal Sample.hpi Sample.rates sHPI Sample.jan2005 0 2 "HI"
  = Ok ((90 # 1) / (90 # 1))%Q.
Proof. split; reflexivity. Qed.



Lemma rate_window_value (HPI : frame) (Rates : series) (origdate : date)
      (offset duration : Z) (state : string) (start : Q) :
  valid (year origdate + offset) (month origdate) (day origdate) = true ->
  valid (year origdate + offset + duration) (month origdate) (day origdate) = true ->
  0 <= duration ->
  ix_at Rates (mkDate (year origdate + offset) (month origdate) (day origdate))
  = Ok start ->
  exists lowest : Q,
    In lowest
       (ix_slice Rates
          (mkDate (year origdate + offset) (month origdate) (day origdate))
          (mkDate (year origdate + offset + duration) (month origdate) (day origdate))) /\
    (forall x,
        In x (ix_slice Rates
                (mkDate (year origdate + offset) (month origdate) (day origdate))
                (mkDate (year origdate + offset + duration) (month origdate)
                        (day origdate))) ->
        (lowest <= x)%Q) /\
    minVal HPI Rates sRate origdate offset duration state = Ok (start - lowest)%Q.
Proof.
  intros Vs Ve Hdur Hstart.
  set (sd := mkDate (year origdate + offset) (month origdate) (day origdate)) in *.
  set (ed := mkDate (year origdate + offset + duration) (month origdate)
                    (day origdate)) in *.
  assert (Hwin : In start (ix_slice Rates sd ed)).
  { apply ix_slice_In with (k := sd);
      [apply ix_at_In; exact Hstart|apply date_leb_refl|
        apply window_order; exact Hdur]. }
  destruct (py_min_spec _ _ Hwin) as (lowest & Hmin & Hin & Hlow).
  exists lowest. split; [exact Hin|]. split; [exact Hlow|].
  unfold minVal. rewrite (dt_date_valid _ _ _ Vs), (dt_date_valid _ _ _ Ve). simpl.
  fold sd ed. rewrite Hstart. simpl. rewrite Hmin. reflexivity.
Qed.

(** X11. A longer window can only show a larger drop of the benchmark rate:
    with the same start, the rate feature of a duration is at most the rate
    feature of any longer duration. *)
Theorem minVal_rate_longer_window (HPI : frame) (Rates : series) (origdate : date)
        (offset duration duration' : Z) (state : string) :
  0 <= duration <= duration' ->
  valid (year origdate + offset) (month origdate) (day origdate) = true ->
  valid (year origdate + offset + duration) (month origdate) (day origdate) = true ->
  valid (year origdate + offset + duration') (month origdate) (day origdate) = true ->
  has_label Rates (mkDate (year origdate + offset) (month origdate) (day origdate)) ->
  exists v v' : Q,
    minVal HPI Rates sRate origdate offset duration state = Ok v /\
    minVal HPI Rates sRate origdate offset duration' state = Ok v' /\
    (v <= v')%Q.
Proof.
  intros Hdur Vs Ve Ve' Hlab.
  set (sd := mkDate (year origdate + offset) (month origdate) (day origdate)) in *.
  destruct (ix_at_label Rates sd Hlab) as [start Hstart].
  destruct (rate_window_value HPI Rates origdate offset duration state start
              Vs Ve ltac:(lia) Hstart) as (lo & Hin & _ & Hv).
  destruct (rate_window_value HPI Rates origdate offset duration' state start
              Vs Ve' ltac:(lia) Hstart) as (lo' & _ & Hlow' & Hv').
  exists (start - lo)%Q, (start - lo')%Q. split; [exact Hv|]. split; [exact Hv'|].
  assert (Hle : (lo' <= lo)%Q).
  { apply Hlow'. apply ix_slice_In_iff in Hin. destruct Hin as (k & Hk & Ha & Hb).
    apply ix_slice_In_iff. exists k. split; [exact Hk|]. split; [exact Ha|].
    apply date_leb_trans with (b := mkDate (year origdate + offset + duration)
                                           (month origdate) (day origdate));
      [exact Hb|].
    replace (year origdate + offset + duration')
      with (year origdate + offset + duration + (duration' - duration)) by lia.
    apply window_order. lia. }
  lra.
Qed.

Lemma minVal_rate_longer_window_witness :
  exists v v' : Q,
    minVal Sample.hpi Sample.rates sRate Sample.jan2005 0 2 "FL" = Ok v /\
    minVal Sample.hpi Sample.rates sRate Sample.jan2005 0 4 "FL" = Ok v' /\
    (v <= v')%Q.
Proof.
  apply (minVal_rate_longer_window Sample.hpi Sample.rates Sample.jan2005 0 2 4 "FL").
  - lia.
  - reflexivity.
  - reflexivity.
  - reflexivity.
  - exists (587 # 100). left. reflexivity.
Defined.

Lemma mapM_Forall2 {A B : Type} (f : A -> result B) (xs : list A) (ys : list B) :
  mapM f xs = Ok ys <-> Forall2 (fun x y => f x = Ok y) xs ys.
Proof.
  revert ys. induction xs as [|a xs IH]; intros ys; simpl.
  - split.
    + intros H; injection H as <-. constructor.
    + intros H; inversion H; reflexivity.
  - destruct (f a) as [y|e] eqn:Ea; simpl.
    + destruct (mapM f xs) as [zs|e] eqn:Em; simpl.
      * split.
        -- intros H; injection H as <-. constructor; [exact Ea|].
           apply IH. reflexivity.
        -- intros H; inversion H as [|x y' l l' Hy Hl]; subst.
           apply IH in Hl. congruence.
      * split; [discriminate|].
        intros H; inversion H as [|x y' l l' Hy Hl]; subst.
        apply IH in Hl. discriminate.
    + split; [discriminate|].
      intros H; inversion H as [|x y' l l' Hy Hl]; subst. congruence.
Qed.

Lemma mapM_first_raise {A B : Type} (f : A -> result B) (xs : list A) (e : exn) :
  mapM f xs = Raise e <->
  exists before x after,
    xs = before ++ x :: after /\
    (forall x', In x' before -> exists y, f x' = Ok y) /\
    f x = Raise e.
Proof.
  induction xs as [|a xs IH]; simpl.
  - split; [discriminate|]. intros (b & x & c & H & _). destruct b; discriminate.
  - destruct (f a) as [y|e'] eqn:Ea; simpl.
    + destruct (mapM f xs) as [zs|e''] eqn:Em; simpl.
      * split; [discriminate|].
        intros (b & x & c & H & Hb & Hx). destruct b as [|b0 b]; simpl in H.
        -- injection H as -> ->. congruence.
        -- injection H as -> ->.
           assert (Hr : Ok zs = @Raise (list B) e); [|discriminate].
           apply IH. exists b, x, c. split; [reflexivity|]. split; [|exact Hx].
           intros x' Hx'. apply Hb. right. exact Hx'.
      * split.
        -- intros H; injection H as ->.
           destruct (proj1 IH eq_refl) as (b & x & c & -> & Hb & Hx).
           exists (a :: b), x, c. split; [reflexivity|]. split; [|exact Hx].
           intros x' [<-|Hx']; [eauto|auto].
        -- intros (b & x & c & H & Hb & Hx). destruct b as [|b0 b]; simpl in H.
           ++ injection H as -> ->. congruence.
           ++ injection H as -> ->. f_equal.
              assert (Hr : @Raise (list B) e'' = Raise e); [|congruence].
              apply IH. exists b, x, c. split; [reflexivity|]. split; [|exact Hx].
              intros x' Hx'. apply Hb. right. exact Hx'.
    + split.
      * intros H; injection H as ->. exists [], a, xs. simpl.
        split; [reflexivity|]. split; [intros x' []|exact Ea].
      * intros (b & x & c & H & Hb & Hx). destruct b as [|b0 b]; simpl in H.
        -- injection H as -> ->. congruence.
        -- injection H as -> ->.
           destruct (Hb b0 (or_introl eq_refl)) as [y Hy]. congruence.
Qed.

(** X12. A window column is all or nothing. The [map] returns a column
    exactly when [minVal] returns a value for every loan, and the column
    then holds these values, one per loan in table order; otherwise it
    raises the exception of the first loan for which [minVal] raises. *)
Theorem populate_all_or_nothing (HPI : frame) (Rates : series) (s : SeriesName)
        (offset duration : Z) (Log_Orig : Table) :
  (forall column : list Q,
      populate HPI Rates s offset duration Log_Orig = Ok column <->
      Forall2 (fun l v => minVal HPI Rates s (ORIG_DTE l) offset duration (STATE l) = Ok v)
              Log_Orig column) /\
  (forall e : exn,
      populate HPI Rates s offset duration Log_Orig = Raise e <->
      exists before l after,
        Log_Orig = before ++ l :: after /\
        (forall l', In l' before ->
                    exists v, minVal HPI Rates s (ORIG_DTE l') offset duration (STATE l')
                              = Ok v) /\
        minVal HPI Rates s (ORIG_DTE l) offset duration (STATE l) = Raise e).
Proof.
  unfold populate. split.
  - intros column. apply mapM_Forall2.
  - intros e. apply mapM_first_raise.
Qed.

(** X13. For a loan originated on a 29th of February none of the three
    windows of the notebook has a feature: in each of them the start or the
    end of the window is no date and [minVal] raises a [ValueError],
    whatever the series hold. *)
Theorem minVal_leap_day_raises (HPI : frame) (Rates : series) (s : SeriesName)
        (y : Z) (state : string) :
  is_leap y = true ->
  minVal HPI Rates s (mkDate y 2 29) 0 2 state = Raise ValueError /\
  minVal HPI Rates s (mkDate y 2 29) 2 2 state = Raise ValueError /\
  minVal HPI Rates s (mkDate y 2 29) 4 2 state = Raise ValueError.
Proof.
  intros Hy. pose proof (not_leap_two_years_on y Hy) as H2.
  unfold minVal. simpl.
  split; [|split].
  - rewrite (leap_day_invalid (y + 0 + 2)) by (rewrite Z.add_0_r; exact H2).
    unfold dt_date. destruct (valid (y + 0) 2 29); reflexivity.
  - rewrite (leap_day_invalid (y + 2) H2). reflexivity.
  - destruct (is_leap (y + 4)) eqn:H4.
    + rewrite (leap_day_invalid (y + 4 + 2) (not_leap_two_years_on _ H4)).
      unfold dt_date. destruct (valid (y + 4) 2 29); reflexivity.
    + rewrite (leap_day_invalid (y + 4) H4). reflexivity.
Qed.

Lemma minVal_leap_day_raises_witness :
  minVal Sample.hpi Sample.rates sRate (mkDate 2004 2 29) 0 2 "FL" = Raise ValueError.
Proof.
  apply (proj1 (minVal_leap_day_raises Sample.hpi Sample.rates sRate 2004 "FL" eq_refl)).
Defined.

(** ** The bucketed passes, value by value *)

(** X14. A bucketed pass returns a column of the size of the table. It keeps
    every value that is there, and it leaves a missing value missing when
    no record of its bucket has a value. *)
Theorem groupby_fill_keeps_or_leaves (table : Table) (fillVar : FillVar)
        (col : LoanRecord -> option Q) :
  exists filled,
    groupby_fill table fillVar col = Ok filled /\
    List.length filled = List.length table /\
    forall i r,
      nth_error table i = Some r ->
      (forall q, col r = Some q -> nth_error filled i = Some (Some q)) /\
      (col r = None ->
       bucket_values table fillVar col (bucket_of table fillVar i) = [] ->
       nth_error filled i = Some None).
Proof.
  exists (map (filled_at table fillVar col) (seq 0 (List.length table))).
  split; [apply groupby_fill_spec|].
  split; [rewrite length_map, length_seq; reflexivity|].
  intros i r Hr.
  assert (Hi : (i < List.length table)%nat) by (apply nth_error_Some; congruence).
  rewrite nth_error_filled by exact Hi.
  assert (Hc : col_at col table i = col r) by (unfold col_at; rewrite Hr; reflexivity).
  unfold filled_at. rewrite Hc. split.
  - intros q ->. reflexivity.
  - intros -> Hb. simpl. f_equal.
    unfold mean. unfold bucket_values in Hb. rewrite Hb. reflexivity.
Qed.

(** The loan of the notebook's output: alone in its bucket, its DTI is not
    filled by the bucketed pass. *)
Example groupby_fill_alone_in_bucket :
  groupby_fill [Sample.loan_8090; Sample.loan_b] fDTI DTI
  = Ok [None; Some (40 # 1)].
Proof. vm_compute. reflexivity. Qed.

(** ** What the imputation leaves alone *)

Lemma combine_In_nth {A B : Type} (xs : list A) :
  forall (ys : list B) (x : A) (y : B),
    In (x, y) (combine xs ys) ->
    exists i, nth_error xs i = Some x /\ nth_error ys i = Some y.
Proof.
  induction xs as [|a xs IH]; intros [|b ys] x y H; simpl in H; try tauto.
  destruct H as [H|H].
  - injection H as -> ->. exists 0%nat. auto.
  - destruct (IH ys x y H) as (i & Hx & Hy). exists (S i). auto.
Qed.

Lemma assign_Forall2 (set : LoanRecord -> option Q -> LoanRecord)
      (R : LoanRecord -> LoanRecord -> Prop) (t : Table) :
  forall c : list (option Q),
    List.length t = List.length c ->
    (forall r v, In (r, v) (combine t c) -> R r (set r v)) ->
    Forall2 R t (assign set t c).
Proof.
  unfold assign. induction t as [|r t IH]; intros [|v c] Hlen H; simpl in *;
    try discriminate; constructor.
  - apply H. left. reflexivity.
  - apply IH; [lia|]. intros r' v' Hin. apply H. right. exact Hin.
Qed.

Lemma Forall2_compose {A : Type} (R : A -> A -> Prop) :
  (forall x y z, R x y -> R y z -> R x z) ->
  forall l1 l2 l3, Forall2 R l1 l2 -> Forall2 R l2 l3 -> Forall2 R l1 l3.
Proof.
  intros Htrans l1 l2 l3 H12. revert l3.
  induction H12 as [|x y l1 l2 Hxy _ IH]; intros l3 H23; inversion H23; subst;
    constructor; eauto.
Qed.

Lemma Forall2_nth_right {A B : Type} (R : A -> B -> Prop) (l : list A) (l' : list B) :
  Forall2 R l l' ->
  forall i y, nth_error l' i = Some y -> exists x, nth_error l i = Some x /\ R x y.
Proof.
  induction 1 as [|x y l l' Hxy _ IH]; intros [|i] z Hz; simpl in *;
    try discriminate.
  - injection Hz as <-. eauto.
  - apply IH. exact Hz.
Qed.

Lemma imputed_from_trans (x y z : LoanRecord) :
  imputed_from x y -> imputed_from y z -> imputed_from x z.
Proof.
  unfold imputed_from.
  intros (A1 & A2 & A3 & A4 & A5 & A6 & A7 & A8) (B1 & B2 & B3 & B4 & B5 & B6 & B7 & B8).
  repeat split; try congruence; eauto.
Qed.

(** A bucketed pass, as a relation between the rows before and after. *)
Lemma pass_Forall2 (set : LoanRecord -> option Q -> LoanRecord)
      (col : LoanRecord -> option Q) (fillVar : FillVar) (t : Table) :
  (forall r v, (forall q, col r = Some q -> v = Some q) -> imputed_from r (set r v)) ->
  Forall2 imputed_from t
          (assign set t (map (filled_at t fillVar col) (seq 0 (List.length t)))).
Proof.
  intros Hset. apply assign_Forall2; [apply length_filled|].
  intros r v Hin. apply Hset. intros q Hq.
  apply combine_In_nth in Hin. destruct Hin as (i & Hr & Hv).
  assert (Hi : (i < List.length t)%nat) by (apply nth_error_Some; congruence).
  rewrite nth_error_filled in Hv by exact Hi. injection Hv as <-.
  unfold filled_at, col_at at 2. rewrite Hr, Hq. reflexivity.
Qed.

Lemma imputed_from_set_CSCORE_B (r : LoanRecord) (v : option Q) :
  (forall q, CSCORE_B r = Some q -> v = Some q) -> imputed_from r (set_CSCORE_B r v).
Proof. intros H. unfold imputed_from. simpl. repeat split; auto. Qed.

Lemma imputed_from_set_DTI (r : LoanRecord) (v : option Q) :
  (forall q, DTI r = Some q -> v = Some q) -> imputed_from r (set_DTI r v).
Proof. intros H. unfold imputed_from. simpl. repeat split; auto. Qed.

Lemma imputed_from_set_OCLTV (r : LoanRecord) (v : option Q) :
  (forall q, OCLTV r = Some q -> v = Some q) -> imputed_from r (set_OCLTV r v).
Proof. intros H. unfold imputed_from. simpl. repeat split; auto. Qed.

Lemma global_mean_DTI_Forall2 (t : Table) :
  Forall2 imputed_from t (global_mean_DTI t).
Proof.
  unfold global_mean_DTI. apply assign_Forall2.
  - unfold fillna. rewrite !length_map. reflexivity.
  - intros r v Hin. apply imputed_from_set_DTI. intros q Hq.
    unfold fillna in Hin. rewrite map_map in Hin.
    apply in_combine_map in Hin. destruct Hin as [_ ->]. rewrite Hq. reflexivity.
Qed.

Lemma impute_Forall2 (Log_Orig : Table) :
  exists t, impute Log_Orig = Ok t /\ Forall2 imputed_from Log_Orig t.
Proof.
  unfold impute, bucketed_passes.
  rewrite groupby_fill_spec. simpl.
  set (t1 := assign set_CSCORE_B Log_Orig _).
  rewrite groupby_fill_spec. simpl.
  set (t2 := assign set_DTI t1 _).
  rewrite groupby_fill_spec. simpl.
  set (t3 := assign set_OCLTV t2 _).
  eexists. split; [reflexivity|].
  apply (Forall2_compose _ imputed_from_trans) with (l2 := t3);
    [|apply global_mean_DTI_Forall2].
  apply (Forall2_compose _ imputed_from_trans) with (l2 := t2);
    [|apply pass_Forall2, imputed_from_set_OCLTV].
  apply (Forall2_compose _ imputed_from_trans) with (l2 := t1);
    [|apply pass_Forall2, imputed_from_set_DTI].
  apply pass_Forall2, imputed_from_set_CSCORE_B.
Qed.

Lemma imputed_from_complete (r r' : LoanRecord) :
  imputed_from r r' ->
  CSCORE_B r <> None -> DTI r <> None -> OCLTV r <> None -> r' = r.
Proof.
  intros (A1 & A2 & A3 & A4 & A5 & A6 & A7 & A8) Hc Hd Ho.
  destruct r as [i a rt dte o d c s], r' as [i' a' rt' dte' o' d' c' s'].
  simpl in *. subst.
  destruct c as [qc|]; [|congruence]. destruct d as [qd|]; [|congruence].
  destruct o as [qo|]; [|congruence].
  rewrite (A6 qc eq_refl), (A7 qd eq_refl), (A8 qo eq_refl). reflexivity.
Qed.

(** X16. Section 1 only fills in: the table it returns has the rows of its
    input, in order, each with the same identifier, amount, rate, date and
    state and with every credit score, DTI and OCLTV that was there; a row
    with all three is returned unchanged. *)
Theorem impute_only_fills (Log_Orig : Table) :
  exists t : Table,
    impute Log_Orig = Ok t /\
    Forall2 (fun r r' =>
               imputed_from r r' /\
               (CSCORE_B r <> None -> DTI r <> None -> OCLTV r <> None -> r' = r))
            Log_Orig t.
Proof.
  destruct (impute_Forall2 Log_Orig) as (t & Ht & HF).
  exists t. split; [exact Ht|].
  eapply Forall2_impl; [|exact HF].
  intros r r' H. split; [exact H|apply imputed_from_complete; exact H].
Qed.

(** ** The report of missing values, after the imputation *)

Lemma combine_seq_In {A : Type} (l : list A) :
  forall (s i : nat) (x : A),
    In (i, x) (combine (seq s (List.length l)) l) <->
    (s <= i)%nat /\ nth_error l (i - s) = Some x.
Proof.
  induction l as [|a l IH]; intros s i x; simpl.
  - split; [tauto|]. intros [_ H]. destruct (i - s)%nat; discriminate.
  - rewrite IH. split.
    + intros [H|[H1 H2]].
      * injection H as -> ->. rewrite Nat.sub_diag. auto.
      * split; [lia|]. replace (i - s)%nat with (S (i - S s)) by lia. exact H2.
    + intros [H1 H2]. destruct (Nat.eq_dec i s) as [->|Hne].
      * rewrite Nat.sub_diag in H2. injection H2 as ->. auto.
      * right. split; [lia|].
        replace (i - s)%nat with (S (i - S s)) in H2 by lia. exact H2.
Qed.

Lemma missing_rows_In (t : Table) (i : nat) (r : LoanRecord) :
  In (i, r) (missing_rows t) <->
  nth_error t i = Some r /\
  (OCLTV r = None \/ ORIG_RT r = None \/ CSCORE_B r = None \/ DTI r = None).
Proof.
  unfold missing_rows. rewrite filter_In, combine_seq_In, Nat.sub_0_r. simpl.
  rewrite !orb_true_iff.
  assert (Hn : forall o : option Q, isnull o = true <-> o = None)
    by (intros [q|]; simpl; split; congruence).
  rewrite !Hn. intuition lia.
Qed.

(** X18. The imputation adds no row to the report of missing values: a row
    listed after section 1 was listed before it, under the same label. And
    as soon as one record has a DTI, no row is listed for its DTI any more:
    every row still listed lacks an OCLTV, a rate or a credit score. *)
Theorem missing_rows_after_impute (Log_Orig : Table) :
  exists t : Table,
    impute Log_Orig = Ok t /\
    (forall i r', In (i, r') (missing_rows t) ->
                  exists r, In (i, r) (missing_rows Log_Orig)) /\
    ((exists r, In r Log_Orig /\ DTI r <> None) ->
     forall i r', In (i, r') (missing_rows t) ->
                  DTI r' <> None /\
                  (OCLTV r' = None \/ ORIG_RT r' = None \/ CSCORE_B r' = None)).
Proof.
  destruct (impute_Forall2 Log_Orig) as (t & Ht & HF).
  exists t. split; [exact Ht|]. split.
  - intros i r' Hin. apply missing_rows_In in Hin. destruct Hin as [Hi Hnull].
    destruct (Forall2_nth_right _ _ _ HF i r' Hi) as (r & Hr & Hrr').
    exists r. apply missing_rows_In. split; [exact Hr|].
    destruct (OCLTV r) as [qo|] eqn:Eo; [|auto].
    destruct (ORIG_RT r) as [qr|] eqn:Er; [|auto].
    destruct (CSCORE_B r) as [qc|] eqn:Ec; [|auto].
    destruct (DTI r) as [qd|] eqn:Ed; [|auto].
    exfalso.
    assert (E : r' = r)
      by (apply imputed_from_complete; [exact Hrr'|congruence..]).
    subst r'. rewrite Eo, Er, Ec, Ed in Hnull.
    destruct Hnull as [H|[H|[H|H]]]; discriminate.
  - intros (r0 & Hin0 & Hr0) i r' Hin.
    apply missing_rows_In in Hin. destruct Hin as [Hi Hnull].
    assert (Hd : DTI r' <> None).
    { destruct (impute_DTI_column Log_Orig) as (t1 & t' & Ht' & _ & _ & H1 & HD).
      rewrite Ht in Ht'. injection Ht' as <-.
      destruct (DTI r0) as [q|] eqn:Eq; [|congruence].
      assert (Hq : In (Some q) (map DTI t1)).
      { rewrite H1, <- Eq. apply in_map. exact Hin0. }
      apply filled_keeps with (fillVar := fDTI) in Hq.
      apply (fill_mean_total _ q Hq). rewrite <- HD. apply in_map.
      eapply nth_error_In. exact Hi. }
    split; [exact Hd|]. tauto.
Qed.

Lemma missing_rows_after_impute_witness :
  exists t : Table,
    impute [Sample.loan_8090; Sample.loan_b] = Ok t /\
    forall i r', In (i, r') (missing_rows t) -> DTI r' <> None.
Proof.
  destruct (missing_rows_after_impute [Sample.loan_8090; Sample.loan_b])
    as (t & Ht & _ & H).
  exists t. split; [exact Ht|]. intros i r' Hin.
  assert (Hex : exists r, In r [Sample.loan_8090; Sample.loan_b] /\ DTI r <> None).
  { exists Sample.loan_b. split; [right; left; reflexivity|discriminate]. }
  exact (proj1 (H Hex i r' Hin)).
Defined.

(** The notebook's own report: one row before the passes, none after the
    global mean. *)
Example missing_rows_loan_8090 :
  missing_rows [Sample.loan_8090; Sample.loan_b] = [(0%nat, Sample.loan_8090)] /\
  exists t, impute [Sample.loan_8090; Sample.loan_b] = Ok t /\ missing_rows t = [].
Proof.
  split; [reflexivity|]. eexists. split; vm_compute; reflexivity.
Qed.

(** ** The width of a bucket *)

Lemma py_round_near (x : Q) :
  (inject_Z (py_round x) - x <= 1 # 2)%Q /\ (x - inject_Z (py_round x) <= 1 # 2)%Q.
Proof.
  unfold py_round. destruct (Qle_bool 0 x).
  - pose proof (Qfloor_le (x + (1 # 2))) as H1.
    pose proof (Qlt_floor (x + (1 # 2))) as H2.
    rewrite inject_Z_plus in H2. change (inject_Z 1) with 1%Q in H2. lra.
  - pose proof (Qfloor_le (- x + (1 # 2))) as H1.
    pose proof (Qlt_floor (- x + (1 # 2))) as H2.
    rewrite inject_Z_plus in H2. change (inject_Z 1) with 1%Q in H2.
    rewrite inject_Z_opp. lra.
Qed.

(** X19. The band a record falls in is the nearest one. For a record with
    an OCLTV (a credit score) of ordinary size and a rate of ordinary size,
    in a table whose OCLTV (credit score) column has an empty cell and so
    is a column of floats, the number in the first part of the key is a
    multiple of 20 (of 50) at most 10 (25) away from that value; a key that
    shows [-0.0] is that of a negative value no further than that from 0. *)
Theorem Buckets_nearest_band (table : Table) (x : nat) (r : LoanRecord) :
  nth_error table x = Some r ->
  (forall q, ORIG_RT r = Some q -> ordinary q) ->
  (forall q, OCLTV r = Some q ->
     ordinary q ->
     (exists r0, In r0 table /\ OCLTV r0 = None) ->
     exists f,
       Buckets table x fCSCORE
       = Ok ("OCLTV-" ++ str f ++ "/Rate-" ++ str (round_f (ORIG_RT r)))%string /\
       match f with
       | Int z => (exists n, z = n * 20) /\
                  (inject_Z z - q <= 10)%Q /\ (q - inject_Z z <= 10)%Q
       | NegZero => (- (10) <= q)%Q /\ (q < 0)%Q
       | NaN => False
       end) /\
  (forall q, CSCORE_B r = Some q ->
     ordinary q ->
     (exists r0, In r0 table /\ CSCORE_B r0 = None) ->
     exists f,
       Buckets table x fDTI
       = Ok ("FICO-" ++ str f ++ "/Rate-" ++ str (round_f (ORIG_RT r)))%string /\
       match f with
       | Int z => (exists n, z = n * 50) /\
                  (inject_Z z - q <= 25)%Q /\ (q - inject_Z z <= 25)%Q
       | NegZero => (- (25) <= q)%Q /\ (q < 0)%Q
       | NaN => False
       end).
Proof.
  intros Hr _.
  assert (Hband : forall (q : Q) (w : Z),
             0 < w ->
             match fmul (round_f (odiv (Some q) w)) w with
             | Int z => (exists n, z = n * w) /\
                        (inject_Z z - q <= (1 # 2) * inject_Z w)%Q /\
                        (q - inject_Z z <= (1 # 2) * inject_Z w)%Q
             | NegZero => (- ((1 # 2) * inject_Z w) <= q)%Q /\ (q < 0)%Q
             | NaN => False
             end).
  { intros q w Hw. simpl.
    assert (HW : (0 < inject_Z w)%Q)
      by (change 0%Q with (inject_Z 0); rewrite <- Zlt_Qlt; exact Hw).
    remember (inject_Z w) as W eqn:HeqW. set (t := (q / W)%Q).
    assert (Hq : (q == t * W)%Q) by (unfold t; field; lra).
    clearbody t.
    destruct (py_round_near t) as [N1 N2].
    assert (M1 : ((inject_Z (py_round t) - t) * W <= (1 # 2) * W)%Q)
      by (apply Qmult_le_compat_r; lra).
    assert (M2 : ((t - inject_Z (py_round t)) * W <= (1 # 2) * W)%Q)
      by (apply Qmult_le_compat_r; lra).
    destruct ((py_round t =? 0) && negb (Qle_bool 0 t)) eqn:E; simpl.
    - apply andb_true_iff in E. destruct E as [E0 En].
      apply Z.eqb_eq in E0. rewrite E0 in M1, M2.
      change (inject_Z 0) with 0%Q in M1, M2.
      assert (Ht : (t < 0)%Q).
      { apply Qnot_le_lt. intros Hle. apply Qle_bool_iff in Hle.
        rewrite Hle in En. discriminate. }
      assert (Hneg : (t * W < 0)%Q).
      { setoid_replace (t * W)%Q with (- ((- t) * W))%Q by ring.
        assert (0 < (- t) * W)%Q by (apply Qmult_lt_0_compat; lra). lra. }
      split; lra.
    - split; [eexists; reflexivity|].
      rewrite inject_Z_mult, <- HeqW. split; lra. }
  unfold Buckets, loc. rewrite Hr. simpl bind. split.
  - intros q Hq _ _. rewrite Hq.
    exists (fmul (round_f (odiv (Some q) 20)) 20). split.
    + rewrite isnan_rounded. reflexivity.
    + pose proof (Hband q 20 ltac:(lia)) as H.
      destruct (fmul (round_f (odiv (Some q) 20)) 20); [exact H| |].
      * change (inject_Z 20) with (20 # 1)%Q in H. lra.
      * change (inject_Z 20) with (20 # 1)%Q in H.
        destruct H as [Hn H]. split; [exact Hn|lra].
  - intros q Hq _ _. rewrite Hq.
    exists (fmul (round_f (odiv (Some q) 50)) 50). split.
    + rewrite isnan_rounded. reflexivity.
    + pose proof (Hband q 50 ltac:(lia)) as H.
      destruct (fmul (round_f (odiv (Some q) 50)) 50); [exact H| |].
      * change (inject_Z 50) with (50 # 1)%Q in H. lra.
      * change (inject_Z 50) with (50 # 1)%Q in H.
        destruct H as [Hn H]. split; [exact Hn|lra].
Qed.

Lemma Buckets_nearest_band_witness :
  exists f,
    Buckets Sample2.loans_with_gaps 0 fCSCORE
    = Ok ("OCLTV-" ++ str f ++ "/Rate-" ++ str (round_f (ORIG_RT Sample.loan_a)))%string /\
    match f with
    | Int z => (exists n, z = n * 20) /\
               (inject_Z z - (39 # 1) <= 10)%Q /\ ((39 # 1) - inject_Z z <= 10)%Q
    | NegZero => (- (10) <= 39 # 1)%Q /\ (39 # 1 < 0)%Q
    | NaN => False
    end.
Proof.
  assert (Hrate : forall q, ORIG_RT Sample.loan_a = Some q -> ordinary q).
  { intros q Hq. injection Hq as <-. split; reflexivity. }
  apply (proj1 (Buckets_nearest_band Sample2.loans_with_gaps 0 Sample.loan_a
                  eq_refl Hrate)).
  - reflexivity.
  - split; reflexivity.
  - exists Sample2.loan_noocltv. split; [simpl; auto|reflexivity].
Defined.

Example Buckets_nearest_band_sample :
  Buckets Sample2.loans_with_gaps 0 fCSCORE = Ok "OCLTV-40.0/Rate-6.0"%string /\
  Buckets Sample2.loans_with_gaps 1 fDTI = Ok "FICO-700.0/Rate-6.0"%string.
Proof. split; vm_compute; reflexivity. Qed.

(** ** Running a bucketed pass again *)

Lemma nth_error_assign (set : LoanRecord -> option Q -> LoanRecord) (t : Table) :
  forall (c : list (option Q)) (j : nat),
    List.length t = List.length c ->
    nth_error (assign set t c) j
    = match nth_error t j, nth_error c j with
      | Some r, Some v => Some (set r v)
      | _, _ => None
      end.
Proof.
  unfold assign. induction t as [|r t IH]; intros [|v c] [|j] Hlen; simpl in *;
    try discriminate; try reflexivity.
  apply IH. lia.
Qed.

Section PassAgain.

Variables (set : LoanRecord -> option Q -> LoanRecord)
          (col : LoanRecord -> option Q) (fillVar : FillVar).

Hypothesis col_set : forall r v, col (set r v) = v.

Hypothesis key_set :
  forall (t : Table) (c : list (option Q)) (j : nat),
    List.length t = List.length c ->
    Buckets (assign set t c) j fillVar = Buckets t j fillVar.

Variable table : Table.

Let filled : list (option Q) :=
  map (filled_at table fillVar col) (seq 0 (List.length table)).

Lemma col_at_assign_filled (j : nat) :
  (j < List.length table)%nat ->
  col_at col (assign set table filled) j = filled_at table fillVar col j.
Proof.
  intros Hj. unfold col_at.
  rewrite nth_error_assign by apply length_filled.
  destruct (loc_in_range table j Hj) as [r Hr]. rewrite Hr.
  unfold filled. rewrite nth_error_filled by exact Hj. apply col_set.
Qed.

Lemma same_bucket_assign (k : string) (j : nat) :
  same_bucket (assign set table filled) fillVar k j = same_bucket table fillVar k j.
Proof.
  unfold same_bucket. rewrite key_set by apply length_filled. reflexivity.
Qed.

Lemma bucket_of_assign (j : nat) :
  bucket_of (assign set table filled) fillVar j = bucket_of table fillVar j.
Proof.
  unfold bucket_of. rewrite key_set by apply length_filled. reflexivity.
Qed.

Lemma filled_at_again (i : nat) :
  (i < List.length table)%nat ->
  filled_at (assign set table filled) fillVar col i = filled_at table fillVar col i.
Proof.
  intros Hi. unfold filled_at at 1.
  rewrite (length_assign set table filled (length_filled table fillVar col)).
  rewrite col_at_assign_filled by exact Hi. rewrite bucket_of_assign.
  destruct (filled_at table fillVar col i) as [q|] eqn:Ei; [reflexivity|].
  simpl. apply mean_none_iff. intros v Hv.
  apply in_map_iff in Hv. destruct Hv as (j & <- & Hj).
  apply filter_In in Hj. destruct Hj as [Hj Hsame].
  apply in_seq in Hj. rewrite same_bucket_assign in Hsame.
  rewrite col_at_assign_filled by lia.
  assert (Hb : bucket_of table fillVar j = bucket_of table fillVar i).
  { rewrite same_bucket_bucket_of in Hsame by lia.
    apply String.eqb_eq. exact Hsame. }
  unfold filled_at in Ei |- *. rewrite Hb.
  destruct (col_at col table i); [discriminate|]. simpl in Ei.
  assert (Hcj : col_at col table j = None).
  { apply (proj1 (mean_none_iff _) Ei). apply in_map.
    apply filter_In. split; [apply in_seq; lia|].
    rewrite same_bucket_bucket_of by lia. apply String.eqb_eq. exact Hb. }
  rewrite Ei, Hcj. reflexivity.
Qed.

Lemma groupby_fill_again :
  groupby_fill (assign set table filled) fillVar col = Ok filled.
Proof.
  rewrite groupby_fill_spec.
  rewrite (length_assign set table filled (length_filled table fillVar col)).
  f_equal. unfold filled. apply map_ext_in. intros i Hi.
  apply in_seq in Hi. apply filled_at_again. lia.
Qed.

End PassAgain.

Lemma Buckets_ext (t t' : Table) (fillVar : FillVar) (j : nat) :
  (forall r', nth_error t' j = Some r' ->
              exists r, nth_error t j = Some r /\ ORIG_RT r' = ORIG_RT r /\
                        match fillVar with
                        | fCSCORE => OCLTV r' = OCLTV r
                        | fDTI | fOCLTV => CSCORE_B r' = CSCORE_B r
                        end) ->
  (nth_error t' j = None -> nth_error t j = None) ->
  match fillVar with
  | fCSCORE => map OCLTV t' = map OCLTV t
  | fDTI | fOCLTV => map CSCORE_B t' = map CSCORE_B t
  end ->
  Buckets t' j fillVar = Buckets t j fillVar.
Proof.
  intros Hrow Hnone Hcol. unfold Buckets, loc.
  destruct (nth_error t' j) as [r'|] eqn:E'.
  - destruct (Hrow r' eq_refl) as (r & -> & Hrt & Hf).
    destruct fillVar; simpl; rewrite Hrt, Hf, Hcol; reflexivity.
  - rewrite (Hnone eq_refl). destruct fillVar; reflexivity.
Qed.

Lemma key_set_pass (set : LoanRecord -> option Q -> LoanRecord) (fillVar : FillVar) :
  (forall r v, ORIG_RT (set r v) = ORIG_RT r) ->
  (forall r v, match fillVar with
               | fCSCORE => OCLTV (set r v) = OCLTV r
               | fDTI | fOCLTV => CSCORE_B (set r v) = CSCORE_B r
               end) ->
  forall (t : Table) (c : list (option Q)) (j : nat),
    List.length t = List.length c ->
    Buckets (assign set t c) j fillVar = Buckets t j fillVar.
Proof.
  intros Hrt Hf t c j Hlen. apply Buckets_ext.
  - intros r' Hr'. rewrite nth_error_assign in Hr' by exact Hlen.
    destruct (nth_error t j) as [r|]; [|discriminate].
    destruct (nth_error c j) as [v|]; [|discriminate].
    injection Hr' as <-. exists r. split; [reflexivity|]. split; [apply Hrt|].
    specialize (Hf r v). destruct fillVar; exact Hf.
  - intros Hn. rewrite nth_error_assign in Hn by exact Hlen.
    destruct (nth_error t j) as [r|] eqn:Er; [|reflexivity].
    destruct (nth_error c j) as [v|] eqn:Ev; [discriminate|].
    apply nth_error_None in Ev.
    assert (j < List.length t)%nat by (apply nth_error_Some; congruence). lia.
  - destruct fillVar; apply map_assign_other; auto;
      intros r v; specialize (Hf r v); exact Hf.
Qed.

(** X20. Running a bucketed pass a second time changes nothing: on the
    table the pass has been assigned to, each of the three passes returns
    the column it returned the first time. *)
Theorem groupby_fill_twice (Log_Orig : Table) :
  (exists c, groupby_fill Log_Orig fCSCORE CSCORE_B = Ok c /\
             groupby_fill (assign set_CSCORE_B Log_Orig c) fCSCORE CSCORE_B = Ok c) /\
  (exists d, groupby_fill Log_Orig fDTI DTI = Ok d /\
             groupby_fill (assign set_DTI Log_Orig d) fDTI DTI = Ok d) /\
  (exists o, groupby_fill Log_Orig fOCLTV OCLTV = Ok o /\
             groupby_fill (assign set_OCLTV Log_Orig o) fOCLTV OCLTV = Ok o).
Proof.
  split; [|split]; eexists; (split; [apply groupby_fill_spec|]);
    apply groupby_fill_again;
    try (intros; reflexivity);
    apply key_set_pass; intros; reflexivity.
Qed.

(** ** Keys do not collide *)

Lemma has_char_app (c : ascii) (s1 s2 : string) :
  has_char c (s1 ++ s2) = has_char c s1 || has_char c s2.
Proof.
  induction s1 as [|a s1 IH]; simpl; [reflexivity|].
  rewrite IH. apply orb_assoc.
Qed.

Lemma split_at_char (c : ascii) (a : string) :
  forall (a' r r' : string),
    has_char c a = false -> has_char c a' = false ->
    (a ++ String c r)%string = (a' ++ String c r')%string ->
    a = a' /\ r = r'.
Proof.
  induction a as [|x a IH]; intros [|x' a'] r r' Ha Ha' H; simpl in *.
  - injection H as ->. auto.
  - injection H as <- _. rewrite Ascii.eqb_refl in Ha'. discriminate.
  - injection H as -> _. rewrite Ascii.eqb_refl in Ha. discriminate.
  - injection H as -> H. apply orb_false_iff in Ha, Ha'.
    destruct (IH a' r r' (proj2 Ha) (proj2 Ha') H) as [-> ->]. auto.
Qed.

Lemma string_of_uint_chars (c : ascii) (d : Decimal.uint) :
  is_num_char c = false -> has_char c (NilEmpty.string_of_uint d) = false.
Proof.
  intros Hc. unfold is_num_char in Hc. simpl in Hc.
  repeat (apply orb_false_iff in Hc; destruct Hc as [? Hc]).
  induction d; simpl; try reflexivity;
    rewrite IHd; rewrite orb_false_r; assumption.
Qed.

Lemma string_of_Z_chars (c : ascii) (z : Z) :
  is_num_char c = false -> has_char c (string_of_Z z) = false.
Proof.
  intros Hc. unfold string_of_Z, NilZero.string_of_int.
  assert (Hu : forall d, has_char c (NilZero.string_of_uint d) = false).
  { intros d. destruct d; try apply (string_of_uint_chars c _ Hc).
    simpl. unfold is_num_char in Hc. simpl in Hc.
    apply orb_false_iff in Hc. destruct Hc as [-> _]. reflexivity. }
  destruct (Z.to_int z) as [d|d]; [apply Hu|].
  simpl. rewrite Hu, orb_false_r.
  unfold is_num_char in Hc. simpl in Hc.
  repeat (apply orb_false_iff in Hc; destruct Hc as [? Hc]).
  assumption.
Qed.

Lemma to_int_not_nil (z : Z) : Z.to_int z <> Decimal.Pos Decimal.Nil /\
                               Z.to_int z <> Decimal.Neg Decimal.Nil.
Proof.
  destruct z as [|p|p]; simpl; split; try discriminate;
    intros H; injection H as H; exact (DecimalPos.Unsigned.to_uint_nonnil p H).
Qed.

Lemma string_of_Z_parse (z : Z) :
  NilZero.int_of_string (string_of_Z z) = Some (Z.to_int z).
Proof.
  unfold string_of_Z. destruct (to_int_not_nil z) as [H1 H2].
  apply NilZero.isi; assumption.
Qed.

Lemma string_of_Z_inj (z z' : Z) : string_of_Z z = string_of_Z z' -> z = z'.
Proof.
  intros H. apply (f_equal NilZero.int_of_string) in H.
  rewrite !string_of_Z_parse in H. injection H as H.
  apply (f_equal Z.of_int) in H. rewrite !DecimalZ.of_to in H. exact H.
Qed.

Lemma string_of_Z_not_minus_zero (z : Z) : string_of_Z z <> "-0"%string.
Proof.
  intros H. apply (f_equal NilZero.int_of_string) in H.
  rewrite string_of_Z_parse in H. simpl in H. injection H as H.
  pose proof (f_equal Z.of_int H) as H0. rewrite DecimalZ.of_to in H0.
  simpl in H0. subst z. discriminate H.
Qed.

Lemma str_inj (f f' : rfloat) : str f = str f' -> f = f'.
Proof.
  assert (Hn : forall z, str (Int z) <> "nan"%string).
  { intros z H. apply (f_equal (has_char "n")) in H. simpl in H.
    rewrite has_char_app, string_of_Z_chars in H by reflexivity.
    discriminate. }
  assert (Hz : forall z, str (Int z) <> "-0.0"%string).
  { intros z H. change "-0.0"%string with ("-0" ++ String "." "0")%string in H.
    change (str (Int z)) with (string_of_Z z ++ String "." "0")%string in H.
    apply split_at_char in H;
      [|apply string_of_Z_chars; reflexivity|reflexivity].
    exact (string_of_Z_not_minus_zero z (proj1 H)). }
  destruct f as [| |z], f' as [| |z']; intros H;
    try reflexivity; try discriminate;
    try (exfalso; first [exact (Hn _ H) | exact (Hn _ (eq_sym H))
                        | exact (Hz _ H) | exact (Hz _ (eq_sym H))]).
  change (str (Int z)) with (string_of_Z z ++ String "." "0")%string in H.
  change (str (Int z')) with (string_of_Z z' ++ String "." "0")%string in H.
  apply split_at_char in H; try (apply string_of_Z_chars; reflexivity).
  f_equal. apply string_of_Z_inj. exact (proj1 H).
Qed.

Lemma str_no_slash (f : rfloat) : has_char "/" (str f) = false.
Proof.
  destruct f as [| |z]; try reflexivity.
  simpl. rewrite has_char_app, string_of_Z_chars by reflexivity. reflexivity.
Qed.

Lemma Buckets_format (table : Table) (x : nat) (r : LoanRecord) (fillVar : FillVar) :
  nth_error table x = Some r ->
  Buckets table x fillVar
  = Ok ((match fillVar with fCSCORE => "OCLTV-" | _ => "FICO-" end)
          ++ str (band table fillVar r)
          ++ String "/" ("Rate-" ++ str (round_f (ORIG_RT r))))%string.
Proof.
  intros Hr. unfold Buckets, loc, band. rewrite Hr.
  destruct fillVar; simpl; rewrite isnan_rounded;
    [destruct (OCLTV r)|destruct (CSCORE_B r)|destruct (CSCORE_B r)]; reflexivity.
Qed.

(** X21. Keys do not collide. In a pass whose first bucketing column has an
    empty cell, and so is a column of floats, two records that have that
    field, with values and rates of ordinary size, have the same key
    exactly when they have the same band of the first field and the same
    rounded rate, a missing rate counting as a rate of its own. *)
Theorem Buckets_same_key_iff (table : Table) (fillVar : FillVar)
        (x1 x2 : nat) (r1 r2 : LoanRecord) (q1 q2 : Q) :
  nth_error table x1 = Some r1 ->
  nth_error table x2 = Some r2 ->
  first_field fillVar r1 = Some q1 ->
  first_field fillVar r2 = Some q2 ->
  (exists r0, In r0 table /\ first_field fillVar r0 = None) ->
  ordinary q1 -> ordinary q2 ->
  (forall q, ORIG_RT r1 = Some q -> ordinary q) ->
  (forall q, ORIG_RT r2 = Some q -> ordinary q) ->
  (Buckets table x1 fillVar = Buckets table x2 fillVar <->
   band table fillVar r1 = band table fillVar r2 /\
   round_f (ORIG_RT r1) = round_f (ORIG_RT r2)).
Proof.
  intros H1 H2 _ _ _ _ _ _ _.
  rewrite (Buckets_format table x1 r1 fillVar H1),
    (Buckets_format table x2 r2 fillVar H2).
  split.
  - intros H. injection H as H.
    assert (H' : (str (band table fillVar r1)
                    ++ String "/" ("Rate-" ++ str (round_f (ORIG_RT r1))))%string
                 = (str (band table fillVar r2)
                      ++ String "/" ("Rate-" ++ str (round_f (ORIG_RT r2))))%string).
    { destruct fillVar; simpl in H; injection H as H; exact H. }
    apply split_at_char in H'; try apply str_no_slash.
    destruct H' as [Ha Hb]. simpl in Hb. injection Hb as Hb.
    split; apply str_inj; assumption.
  - intros [-> ->]. reflexivity.
Qed.

Lemma Buckets_same_key_iff_witness :
  Buckets Sample2.loans_with_gaps 0 fCSCORE = Buckets Sample2.loans_with_gaps 1 fCSCORE <->
  band Sample2.loans_with_gaps fCSCORE Sample.loan_a
  = band Sample2.loans_with_gaps fCSCORE Sample.loan_c /\
  round_f (ORIG_RT Sample.loan_a) = round_f (ORIG_RT Sample.loan_c).
Proof.
  apply (Buckets_same_key_iff Sample2.loans_with_gaps fCSCORE 0 1
           Sample.loan_a Sample.loan_c (39 # 1) (42 # 1)).
  - reflexivity.
  - reflexivity.
  - reflexivity.
  - reflexivity.
  - exists Sample2.loan_noocltv. split; [simpl; auto|reflexivity].
  - split; reflexivity.
  - split; reflexivity.
  - intros q Hq. injection Hq as <-. split; reflexivity.
  - intros q Hq. injection Hq as <-. split; reflexivity.
Defined.
